(** * The bounded audit recorder of privacyAudit.ts

    A shallow embedding of the [PrivacyAuditSystem] class of
    src/privacyAudit.ts: the audit log with its retention policy
    ([recordEvent]), the read-back ([getAuditTrail]), the statistics
    ([getStats]) and the export hook that [recordEvent] fires
    ([autoExport], [exportAuditLog]).

    Conventions of the embedding:
    - JavaScript numbers that are used as integers are [Z] (a limit, the
      configured maximum) or [nat] (an array length, a counter);
    - [Record<string, string>] objects are [gmap string string]; the count
      objects of [getStats] are [gmap string nat];
    - the sources of non-determinism ([Math.random], [Date], the current
      directory) are read from an oracle [rng : nat -> Draw], one draw per
      call that needs one; the position in the oracle is part of the world;
    - the console is an output trace; the rendering of a line (colours,
      masking) is not modelled, a line carries the entry it displays;
    - a method of the class is a computation in a state monad over the
      world; [recordEvent] and [exportAuditLog] call each other, so
      [recordEvent] takes a call-depth budget; the nested call runs while
      [isExporting] is set and goes no deeper, so two levels always suffice
      (see [recordEvent_effect]);
    - what [exportAuditLog] does after its [await] runs later, as a step of
      its own ([exportAuditLog_resume]); the content of the exported file
      is not modelled. *)

From Stdlib Require Import ZArith Lia QArith Lqa Ascii.
From stdpp Require Import base list strings gmap fin_maps pretty.

Local Open Scope string_scope.
Local Open Scope list_scope.
Local Open Scope Z_scope.

(** ** Types and interfaces *)

Inductive Status := Verified | Recorded | Exported | Pending | Failed.

Inductive RiskLevel := LOW | MEDIUM | HIGH | CRITICAL.

Inductive Encryption := AES_256 | CHACHA20 | ZK_SNARK.

Definition Status_str (s : Status) : string :=
  match s with
  | Verified => "Verified" | Recorded => "Recorded" | Exported => "Exported"
  | Pending => "Pending" | Failed => "Failed"
  end.

Definition RiskLevel_str (r : RiskLevel) : string :=
  match r with
  | LOW => "LOW" | MEDIUM => "MEDIUM" | HIGH => "HIGH" | CRITICAL => "CRITICAL"
  end.

Definition Encryption_str (e : Encryption) : string :=
  match e with
  | AES_256 => "AES-256" | CHACHA20 => "CHACHA20" | ZK_SNARK => "ZK-SNARK"
  end.

(** [interface AuditEntry].  The [type] field is a string at run time; the
    interface restricts it to the four literals of [known_types]. *)
Record AuditEntry := {
  id : string;
  timestamp : string;
  type : string;
  message : string;
  meta : option (gmap string string);
  status : Status;
  integrityHash : option string;
  sessionId : string;
  durationMs : option Z;
  riskLevel : RiskLevel
}.

Definition known_types : list string :=
  ["proof"; "inference"; "verification"; "system"].

(** [interface AuditStats]. *)
Record AuditStats := {
  totalRecords : nat;
  byType : gmap string nat;
  byStatus : gmap string nat;
  byRiskLevel : gmap string nat;
  firstRecord : option string;
  lastRecord : option string
}.

(** [interface AuditConfig]; the fields live in a module of their own since
    the class has a method that is also called [autoExport]. *)
Module Config.
Record AuditConfig := {
  autoExport : bool;
  maxEntries : Z;
  riskThreshold : RiskLevel;
  enableCompression : bool;
  encryptionLevel : Encryption
}.
End Config.
Abbreviation AuditConfig := Config.AuditConfig.

(** ** Constants and configuration *)

Definition AUDIT_CONFIG : AuditConfig := {|
  Config.autoExport := true;
  Config.maxEntries := 10000;
  Config.riskThreshold := HIGH;
  Config.enableCompression := true;
  Config.encryptionLevel := ZK_SNARK
|}.

(** ** The environment *)

(** What one call reads from the clock and the random generator. *)
Record Draw := {
  date_now : string;   (* Date.now().toString(36) *)
  rand36 : string;     (* Math.random().toString(36), cut and upper-cased *)
  iso : string;        (* new Date().toISOString(), reformatted by [now] *)
  pick : nat;          (* the random source of [randomElement] *)
  hex64 : string;      (* the 64 random hexadecimal digits of a hash *)
  delay : Z;           (* Math.round(Math.random() * 200 + 50) *)
  fixed2 : string;     (* a random or computed number after toFixed(2) *)
  cwd : string         (* process.cwd() *)
}.

(** ** Utility functions *)

Definition now (d : Draw) : string := iso d.

Definition generateId (d : Draw) (prefix : string) : string :=
  prefix +:+ "-" +:+ date_now d +:+ "-" +:+ rand36 d.

Definition generateSessionId (d : Draw) : string :=
  "SESS-" +:+ rand36 d +:+ "-" +:+ date_now d.

Definition generateIntegrityHash (d : Draw) : string := "0x" +:+ hex64 d.

(** [array[Math.floor(Math.random() * array.length)]]: the index ranges over
    exactly the positions of the array, as [pick d mod length array] does. *)
Definition randomElement {T} (d : Draw) (array : list T) (dflt : T) : T :=
  nth (pick d mod length array)%nat array dflt.

(** [meta?.key === value] *)
Definition meta_is (meta : option (gmap string string)) (key value : string) : bool :=
  bool_decide (meta ≫= (λ m, m !! key) = Some value).

Definition calculateRiskLevel (type : string) (meta : option (gmap string string))
  : RiskLevel :=
  if bool_decide (type = "system") then LOW
  else if bool_decide (type = "verification") then MEDIUM
  else if bool_decide (type = "inference") then
    (if meta_is meta "sensitivity" "high" then HIGH else MEDIUM)
  else if bool_decide (type = "proof") then
    (if meta_is meta "complexity" "high" then HIGH else MEDIUM)
  else LOW.

(** [Array.prototype.slice(start)] for an integer [start]: a negative start
    counts from the end, and both ends are clamped to the array. *)
Definition slice {A} (start : Z) (l : list A) : list A :=
  let len := Z.of_nat (length l) in
  let k := if start <? 0 then Z.max (len + start) 0 else Z.min start len in
  drop (Z.to_nat k) l.

(** *** Number.prototype.toString on integers

    An integer stands for the double that it denotes, the nearest one, ties
    to the even mantissa; up to [2 ^ 53] that is the integer itself and its
    text is its decimal expansion.  Above, the text has the shortest digits
    that denote the same double (the closest such digits, as the engines
    choose them), padded with zeros up to twenty-one digits and in exponent
    notation from [1e21] on. *)

(** The double of a natural number; [None] is [Infinity]. *)
Definition round_to_double (x : Z) : option Z :=
  if x <? 2 ^ 53 then Some x
  else
    let ulp := 2 ^ (Z.log2 x - 52) in
    let q := x / ulp in
    let r := x mod ulp in
    let q' := if 2 * r <? ulp then q
              else if ulp <? 2 * r then q + 1
              else if Z.even q then q else q + 1 in
    if 2 ^ 1024 <=? q' * ulp then None else Some (q' * ulp).

(** [s] has [k] digits and [s * 10 ^ (n - k)] denotes the double [x]. *)
Definition digits_valid (x k : Z) (c : Z * Z) : bool :=
  let '(s, n) := c in
  (10 ^ (k - 1) <=? s) && (s <? 10 ^ k)
  && bool_decide (round_to_double (s * 10 ^ (n - k)) = Some x).

Definition digits_closer (x k : Z) (c1 c2 : Z * Z) : Z * Z :=
  let d1 := Z.abs (c1.1 * 10 ^ (c1.2 - k) - x) in
  let d2 := Z.abs (c2.1 * 10 ^ (c2.2 - k) - x) in
  if d1 <? d2 then c1
  else if d2 <? d1 then c2
  else if Z.even c1.1 then c1 else c2.

(** The digits of length [k] for [x], which has [n0] decimal digits. *)
Definition digits_at (x n0 k : Z) : option (Z * Z) :=
  let p := 10 ^ (n0 - k) in
  let cs := [(x / p, n0); (x / p + 1, n0)]
            ++ (if k =? 1 then [(1, n0 + 1)] else []) in
  match List.filter (digits_valid x k) cs with
  | [] => None
  | c :: rest => Some (foldl (digits_closer x k) c rest)
  end.

Fixpoint shortest_from (x n0 : Z) (ks : list Z) : Z * Z :=
  match ks with
  | [] => (x, n0)
  | k :: ks' =>
      match digits_at x n0 k with
      | Some c => c
      | None => shortest_from x n0 ks'
      end
  end.

Definition shortest_digits (x : Z) : Z * Z :=
  shortest_from x (Z.of_nat (String.length (pretty x))) (seqZ 1 17).

Fixpoint zeros (n : nat) : string :=
  match n with
  | O => ""
  | S n' => "0" +:+ zeros n'
  end.

Definition format_digits (s n : Z) : string :=
  let ds := pretty s in
  let k := Z.of_nat (String.length ds) in
  if n <=? 21 then ds +:+ zeros (Z.to_nat (n - k))
  else match ds with
       | String c rest =>
           String c (if bool_decide (rest = "") then "" else "." +:+ rest)
           +:+ "e+" +:+ pretty (n - 1)
       | EmptyString => ""
       end.

Definition Number_toString (k : Z) : string :=
  let body (x : Z) : string :=
    match round_to_double x with
    | None => "Infinity"
    | Some y =>
        if y <? 2 ^ 53 then pretty y
        else let '(s, n) := shortest_digits y in format_digits s n
    end in
  if k <? 0 then "-" +:+ body (- k) else body k.

(** [path.join], on segments that need no normalisation. *)
Definition path_join (a b : string) : string := a +:+ "/" +:+ b.

(** ** The class PrivacyAuditSystem *)

(** The private fields.  The session id of the recorder is [this_sessionId],
    [sessionId] being the field of an entry. *)
Record PrivacyAuditSystem := {
  auditLog : list AuditEntry;
  this_sessionId : string;
  isExporting : bool;
  startupTime : string
}.

Inductive Output :=
  | AuditLine (entry : AuditEntry)   (* what logToConsole prints for an entry *)
  | Notice (text : string).          (* any other console.log *)

Record World := {
  this : PrivacyAuditSystem;
  console : list Output;
  tick : nat
}.

(** An export suspended at [await sleep(...)]. *)
Record ExportJob := {
  job_exportId : string;
  job_filePath : option string
}.

Definition set_auditLog (f : list AuditEntry → list AuditEntry) (w : World) : World :=
  {| this := {| auditLog := f (auditLog (this w));
                this_sessionId := this_sessionId (this w);
                isExporting := isExporting (this w);
                startupTime := startupTime (this w) |};
     console := console w; tick := tick w |}.

Definition set_isExporting (b : bool) (w : World) : World :=
  {| this := {| auditLog := auditLog (this w);
                this_sessionId := this_sessionId (this w);
                isExporting := b;
                startupTime := startupTime (this w) |};
     console := console w; tick := tick w |}.

Definition print (o : Output) (w : World) : World :=
  {| this := this w; console := console w ++ [o]; tick := tick w |}.

Definition advance (w : World) : World :=
  {| this := this w; console := console w; tick := S (tick w) |}.

(** *** The monad of the methods: state, and a call-depth overflow *)

Definition M (A : Type) : Type := World → option (A * World).

Definition ret {A} (a : A) : M A := λ w, Some (a, w).

Definition bind {A B} (c : M A) (k : A → M B) : M B :=
  λ w, match c w with
       | Some (a, w') => k a w'
       | None => None
       end.

Definition overflow {A} : M A := λ _, None.

Definition gets {A} (f : World → A) : M A := λ w, Some (f w, w).

Definition modify (f : World → World) : M unit := λ w, Some (tt, f w).

Notation "'let*' x ':=' c 'in' k" := (bind c (λ x, k))
  (at level 10, x pattern, c at level 100, k at level 200).
Notation "c ';;' k" := (bind c (λ _, k))
  (at level 100, k at level 200, right associativity).

Section Recorder.

Variable cfg : AuditConfig.
Variable rng : nat → Draw.

Definition draw : M Draw := λ w, Some (rng (tick w), advance w).

Definition logToConsole (entry : AuditEntry) : M unit :=
  modify (print (AuditLine entry)).

(** The part of [exportAuditLog] that runs before its first [await]; it
    returns the suspended rest, if there is one. *)
Definition exportAuditLog_begin
    (recordEvent : string → string → option (gmap string string) → M unit)
    (filePath : option string) : M (option ExportJob) :=
  let* busy := gets (λ w, isExporting (this w)) in
  if busy : bool then
    modify (print (Notice "Export already in progress")) ;;
    ret None
  else
    modify (set_isExporting true) ;;
    let* d := draw in
    let exportId := generateId d "EXP" in
    let* n := gets (λ w, length (auditLog (this w))) in
    recordEvent "system" ("Starting audit log export: " +:+ exportId)
      (Some {[ "records" := pretty n; "format" := "JSON" ]}) ;;
    ret (Some {| job_exportId := exportId; job_filePath := filePath |}).

Definition autoExport
    (recordEvent : string → string → option (gmap string string) → M unit)
    : M (option ExportJob) :=
  if negb (Config.autoExport cfg) then ret None
  else
    let* d := draw in
    let* sid := gets (λ w, this_sessionId (this w)) in
    let exportDir := path_join (cwd d) "auto_exports" in
    let fileName := "auto_export_" +:+ sid +:+ "_" +:+ date_now d +:+ ".json" in
    exportAuditLog_begin recordEvent (Some (path_join exportDir fileName)).

Definition new_entry (d : Draw) (sid type message : string)
    (meta : option (gmap string string)) : AuditEntry :=
  {| id := generateId d "AUD";
     timestamp := now d;
     type := type;
     message := message;
     meta := meta;
     status := randomElement d [Verified; Recorded; Pending] Verified;
     integrityHash := Some (generateIntegrityHash d);
     sessionId := sid;
     durationMs := Some (delay d);
     riskLevel := calculateRiskLevel type meta |}.

(** The retention policy of [recordEvent]. *)
Definition retain (log : list AuditEntry) : list AuditEntry :=
  if Z.of_nat (length log) >? Config.maxEntries cfg
  then slice (- Config.maxEntries cfg) log
  else log.

(** [AUDIT_CONFIG.autoExport && this.auditLog.length % 10 === 0] *)
Definition export_due (n : nat) : bool :=
  Config.autoExport cfg && (Z.rem (Z.of_nat n) 10 =? 0).

Fixpoint recordEvent (depth : nat) (type message : string)
    (meta : option (gmap string string)) : M unit :=
  match depth with
  | O => overflow
  | S depth' =>
    let* d := draw in
    let* sid := gets (λ w, this_sessionId (this w)) in
    let entry := new_entry d sid type message meta in
    modify (set_auditLog (λ log, log ++ [entry])) ;;
    modify (set_auditLog retain) ;;
    logToConsole entry ;;
    let* n := gets (λ w, length (auditLog (this w))) in
    if export_due n
    then autoExport (recordEvent depth') ;; ret tt
    else ret tt
  end.

(** [new PrivacyAuditSystem()]: the field initialisers, then the body of
    the constructor. *)
Definition constructor (depth : nat) (out : list Output) (t : nat) : option World :=
  let d := rng t in
  let w := {| this := {| auditLog := [];
                         this_sessionId := generateSessionId d;
                         isExporting := false;
                         startupTime := now d |};
              console := out; tick := S t |} in
  match recordEvent depth "system" "Privacy Audit System initialized"
          (Some {[ "version" := "2.1.0";
                   "encryption" := Encryption_str (Config.encryptionLevel cfg);
                   "sessionId" := generateSessionId d ]}) w with
  | Some (_, w') => Some w'
  | None => None
  end.

(** [limit ? this.auditLog.slice(-limit) : [...this.auditLog]] *)
Definition trail (limit : option Z) (log : list AuditEntry) : list AuditEntry :=
  match limit with
  | Some k => if k =? 0 then log else slice (- k) log
  | None => log
  end.

(** [limit?.toString() || 'none'] *)
Definition limit_str (limit : option Z) : string :=
  match limit with
  | Some k => if bool_decide (Number_toString k = "") then "none" else Number_toString k
  | None => "none"
  end.

Definition getAuditTrail (depth : nat) (limit : option Z) : M (list AuditEntry) :=
  let* log := gets (λ w, auditLog (this w)) in
  let records := trail limit log in
  let* d := draw in
  recordEvent depth "system"
    ("Audit trail queried - " +:+ pretty (length records) +:+ " records retrieved")
    (Some {[ "limit" := limit_str limit; "queryTime" := fixed2 d +:+ "ms" ]}) ;;
  ret records.

(** [x || null] on an optional string: the empty string is falsy. *)
Definition or_null (x : option string) : option string :=
  match x with
  | Some s => if bool_decide (s = "") then None else Some s
  | None => None
  end.

(** [(counts[key] || 0) + 1], stored back under [key]. *)
Definition bump (key : string) (counts : gmap string nat) : gmap string nat :=
  let old := match counts !! key with
             | Some n => if (n =? 0)%nat then 0%nat else n
             | None => 0%nat
             end in
  <[ key := (old + 1)%nat ]> counts.

Definition tally (stats : AuditStats) (entry : AuditEntry) : AuditStats :=
  {| totalRecords := totalRecords stats;
     byType := bump (type entry) (byType stats);
     byStatus := bump (Status_str (status entry)) (byStatus stats);
     byRiskLevel := bump (RiskLevel_str (riskLevel entry)) (byRiskLevel stats);
     firstRecord := firstRecord stats;
     lastRecord := lastRecord stats |}.

Definition getStats : M AuditStats :=
  let* log := gets (λ w, auditLog (this w)) in
  let stats := {| totalRecords := length log;
                  byType := ∅; byStatus := ∅; byRiskLevel := ∅;
                  firstRecord := or_null (timestamp <$> head log);
                  lastRecord := or_null (timestamp <$> last log) |} in
  ret (foldl tally stats log).

(** The rest of [exportAuditLog], after the [await]: [fs_error] is the
    message of the exception of the file system calls, if they throw. *)
Definition exportAuditLog_resume (depth : nat) (job : ExportJob)
    (fs_error : option string) : M unit :=
  let* d := draw in
  let* sid := gets (λ w, this_sessionId (this w)) in
  let defaultFileName := "audit_log_" +:+ sid +:+ "_" +:+ date_now d +:+ ".json" in
  let defaultPath := path_join (path_join (cwd d) "exports") defaultFileName in
  let finalFilePath :=
    match job_filePath job with
    | Some p => if bool_decide (p = "") then defaultPath else p
    | None => defaultPath
    end in
  match fs_error with
  | None =>
    let* n := gets (λ w, length (auditLog (this w))) in
    recordEvent depth "system" "Audit log exported successfully"
      (Some {[ "exportId" := job_exportId job;
               "filePath" := finalFilePath;
               "records" := pretty n;
               "fileSize" := fixed2 d +:+ "KB" ]}) ;;
    let* n' := gets (λ w, length (auditLog (this w))) in
    modify (print (Notice ("Exported " +:+ pretty n' +:+ " audit records → "
                            +:+ finalFilePath)))
  | Some errorMessage =>
    recordEvent depth "system" "Audit log export failed"
      (Some {[ "exportId" := job_exportId job;
               "error" := errorMessage;
               "status" := "Failed" ]}) ;;
    modify (print (Notice ("Export failed: " +:+ errorMessage)))
  end ;;
  modify (set_isExporting false).

(** A caller that records a sequence of events one after the other, as the
    loops of [runAuditDemo] do. *)
Fixpoint recordEvents (depth : nat)
    (events : list (string * string * option (gmap string string))) : M unit :=
  match events with
  | [] => ret tt
  | (type, message, meta) :: rest =>
    recordEvent depth type message meta ;; recordEvents depth rest
  end.

End Recorder.

(** ** Notions used in the statements *)

(** The [n] most recent entries of a log, oldest first. *)
Definition newest {A} (n : nat) (l : list A) : list A :=
  drop (length l - n)%nat l.

(** The entries that were displayed on the console, in order: every entry a
    [recordEvent] creates is displayed once, by [logToConsole]. *)
Definition audit_lines (out : list Output) : list AuditEntry :=
  omap (λ o, match o with AuditLine e => Some e | Notice _ => None end) out.

(** The sum of the counters of a count object. *)
Definition map_sum (m : gmap string nat) : nat :=
  map_fold (λ _ n acc, (n + acc)%nat) 0%nat m.

(** An entry as the interface and [now] make it: a type among the four
    literals, a time stamp that is not empty.  The statistics are stated
    for such entries: [x || null] takes an empty time stamp for an absent
    one, and a count object, which starts as [{}], is a finite map only on
    the keys that [{}] does not inherit from [Object.prototype], as the
    four literals are. *)
Definition wf_entry (e : AuditEntry) : Prop :=
  type e ∈ known_types ∧ timestamp e ≠ "".

(** Every entry of the log carries the session id of the recorder. *)
Definition session_inv (w : World) : Prop :=
  Forall (λ e, sessionId e = this_sessionId (this w)) (auditLog (this w)).

(** What a computation did to the recorder: the entries [es] were created,
    displayed, and pushed one by one under the retention policy; the session
    id and the start-up time are as before; every entry was made by
    [new_entry] from a draw of the oracle. *)
Record effect (cfg : AuditConfig) (rng : nat → Draw) (w w' : World)
    (es : list AuditEntry) : Prop := {
  eff_log : auditLog (this w') = foldl (λ log e, retain cfg (log ++ [e])) (auditLog (this w)) es;
  eff_out : audit_lines (console w') = audit_lines (console w) ++ es;
  eff_sid : this_sessionId (this w') = this_sessionId (this w);
  eff_start : startupTime (this w') = startupTime (this w);
  eff_session : Forall (λ e, sessionId e = this_sessionId (this w)) es;
  eff_made : Forall (λ e, ∃ n, e = new_entry (rng n) (sessionId e) (type e)
                                     (message e) (meta e)) es
}.

(** The entry that a [recordEvent] called in world [w] creates. *)
Definition created (rng : nat → Draw) (w : World) (type message : string)
    (meta : option (gmap string string)) : AuditEntry :=
  new_entry (rng (tick w)) (this_sessionId (this w)) type message meta.

(** The world after the first half of [recordEvent]: the draw, the push, the
    retention policy and the console line. *)
Definition pushed (cfg : AuditConfig) (e : AuditEntry) (w : World) : World :=
  print (AuditLine e)
    (set_auditLog (retain cfg) (set_auditLog (λ log, log ++ [e]) (advance w))).

(** What may follow the entry of a call: nothing, or the notice of an export
    that starts because the log, of length [n] after the push, is due for
    one and none is in progress. *)
Definition follow_up (cfg : AuditConfig) (w w' : World) (n : nat)
    (extra : list AuditEntry) : Prop :=
  (extra = [] ∧ isExporting (this w') = isExporting (this w))
  ∨ (∃ x, extra = [x] ∧ type x = "system"
       ∧ export_due cfg n = true
       ∧ isExporting (this w) = false ∧ isExporting (this w') = true).

(** What one call of [recordEvent] for [event] pushes: the entry of the
    event and after it at most one notice of an export. *)
Definition call_pushes (event : string * string * option (gmap string string))
    (block : list AuditEntry) : Prop :=
  ∃ e extra,
    block = e :: extra
    ∧ (type e, message e, meta e) = event
    ∧ (length extra ≤ 1)%nat
    ∧ Forall (λ x, type x = "system"
                   ∧ ∃ exportId, message x = "Starting audit log export: " +:+ exportId)
        extra.

(** The categories of the specification, and its rule for the risk level. *)
Inductive Category := CatProof | CatInference | CatVerification | CatSystem.

Definition category_of (type : string) : option Category :=
  if bool_decide (type = "proof") then Some CatProof
  else if bool_decide (type = "inference") then Some CatInference
  else if bool_decide (type = "verification") then Some CatVerification
  else if bool_decide (type = "system") then Some CatSystem
  else None.

Definition spec_riskLevel (type : string) (meta : option (gmap string string))
  : RiskLevel :=
  match category_of type with
  | Some CatSystem => LOW
  | Some CatVerification => MEDIUM
  | Some CatInference =>
      match meta with
      | Some m => if bool_decide (m !! "sensitivity" = Some "high") then HIGH else MEDIUM
      | None => MEDIUM
      end
  | Some CatProof =>
      match meta with
      | Some m => if bool_decide (m !! "complexity" = Some "high") then HIGH else MEDIUM
      | None => MEDIUM
      end
  | None => LOW
  end.

(** ** A concrete environment, for the examples *)

Definition rng0 (n : nat) : Draw :=
  {| date_now := pretty n; rand36 := "K3X9"; iso := "2025-01-01 00:00:00";
     pick := n; hex64 := "00ff"; delay := 50 + Z.of_nat n; fixed2 := "20.00";
     cwd := "/srv/app" |}.

(** The configuration of the example of the specification: at most three
    entries. *)
Definition CONFIG_3 : AuditConfig := {|
  Config.autoExport := true;
  Config.maxEntries := 3;
  Config.riskThreshold := HIGH;
  Config.enableCompression := true;
  Config.encryptionLevel := ZK_SNARK
|}.

Definition empty_recorder : World :=
  {| this := {| auditLog := []; this_sessionId := "SESS-K3X9-0";
                isExporting := false; startupTime := "2025-01-01 00:00:00" |};
     console := []; tick := 0 |}.

(** ** More of the source *)

(** *** Text utilities

    A JavaScript string is read as the sequence of its characters; the
    texts that these functions handle (hashes, time stamps) are ASCII, where
    a character, a UTF-16 code unit and a byte are the same. *)

(** [s.substring(start, end)] on natural numbers: both indices are clamped to
    the length and swapped when out of order. *)
Definition js_substring (start stop : nat) (s : string) : string :=
  let len := String.length s in
  let a := (start `min` len)%nat in
  let b := (stop `min` len)%nat in
  String.string_of_list_ascii
    (take ((a `max` b) - (a `min` b))%nat
       (drop (a `min` b)%nat (String.list_ascii_of_string s))).

(** [s.substring(start)] *)
Definition js_substring_from (start : nat) (s : string) : string :=
  js_substring start (String.length s) s.

(** [s.repeat(n)] *)
Fixpoint js_repeat (s : string) (n : nat) : string :=
  match n with
  | O => ""
  | S n' => s +:+ js_repeat s n'
  end.

(** [s.replace(c, d)] for one-character strings: the first occurrence only. *)
Fixpoint js_replace (c d : ascii) (s : string) : string :=
  match s with
  | EmptyString => EmptyString
  | String x s' => if decide (x = c) then String d s' else String x (js_replace c d s')
  end.

(** [s.split(sep)] for a one-character separator. *)
Fixpoint js_split (sep : ascii) (s : string) : list string :=
  match s with
  | EmptyString => [EmptyString]
  | String x s' =>
      if decide (x = sep) then EmptyString :: js_split sep s'
      else match js_split sep s' with
           | [] => [String x EmptyString]
           | piece :: pieces => String x piece :: pieces
           end
  end.

(** [mask(value, visibleChars)]; the default of [visibleChars] is 4. *)
Definition mask (value : string) (visibleChars : nat) : string :=
  if (String.length value <=? visibleChars * 2)%nat then
    js_repeat "*" (String.length value)
  else
    let first := js_substring 0 visibleChars value in
    let last := js_substring_from (String.length value - visibleChars) value in
    first +:+ js_repeat "*" 12 +:+ last.

(** The loop of [generateIntegrityHash], the random indices given one by
    one; [chars[i]] outside the string would be [undefined]. *)
Definition hex_chars : string := "0123456789abcdef".

Definition char_at (i : nat) (s : string) : string :=
  match String.get i s with
  | Some c => String c EmptyString
  | None => "undefined"
  end.

Fixpoint integrity_loop (n : nat) (random : nat → nat) (result : string) : string :=
  match n with
  | O => result
  | S n' =>
      integrity_loop n' (λ i, random (S i))
        (result +:+ char_at (random O mod String.length hex_chars)%nat hex_chars)
  end.

Definition generateIntegrityHash_loop (random : nat → nat) : string :=
  integrity_loop 64 random "0x".

(** The text of [now()], from the text of [toISOString()]. *)
Definition now_text (isoString : string) : string :=
  js_substring 0 19 (js_replace "T"%char " "%char isoString).

(** [entry.timestamp.split(' ')[1]], the time that [logToConsole] displays;
    [None] is [undefined]. *)
Definition console_time (timestamp : string) : option string :=
  js_split " "%char timestamp !! 1%nat.

(** [timestamp()] of cipherSync.ts, from the text of [toISOString()]:
    [split('T')[1].substring(0, 8)]; [None] is the TypeError of a text
    without "T". *)
Definition sync_timestamp (isoString : string) : option string :=
  js_substring 0 8 <$> (js_split "T"%char isoString !! 1%nat).

(** *** The verdict of printSummary

    The last statements of [printSummary]; the lines before them, with
    their percentages in floating point, are left out. *)

(** [x || 0] on an optional counter. *)
Definition or_zero (x : option nat) : nat :=
  match x with
  | Some n => n
  | None => 0%nat
  end.

(** [stats.byRiskLevel['HIGH'] || 0 + (stats.byRiskLevel['CRITICAL'] || 0)]:
    the sum binds tighter than the first [||]. *)
Definition highRiskCount (stats : AuditStats) : nat :=
  match byRiskLevel stats !! "HIGH" with
  | Some n =>
      if (n =? 0)%nat then (0 + or_zero (byRiskLevel stats !! "CRITICAL"))%nat else n
  | None => (0 + or_zero (byRiskLevel stats !! "CRITICAL"))%nat
  end.

Definition printSummary_verdict : M unit :=
  let* stats := getStats in
  if (0 <? highRiskCount stats)%nat then
    modify (print (Notice (pretty (highRiskCount stats) +:+ " high-risk events detected")))
  else
    modify (print (Notice "All events within acceptable risk parameters")).

(** *** exportAuditLog, as the callers have it *)

(** The public method up to its first [await]. *)
Definition exportAuditLog (cfg : AuditConfig) (rng : nat → Draw) (depth : nat)
    (filePath : option string) : M (option ExportJob) :=
  exportAuditLog_begin rng (recordEvent cfg rng depth) filePath.

(** The events of the first loop of [runAuditDemo]. *)
Definition demo_events : list (string * string * option (gmap string string)) :=
  [ ("proof", "ZK-SNARK proof generated — Integrity Verified",
     Some {[ "circuit" := "ml-inference-v2"; "complexity" := "high"; "nodes" := "1247" ]});
    ("inference", "AI Session initialized — Model loaded successfully",
     Some {[ "model" := "gpt-4-zk"; "parameters" := "7.3B"; "sensitivity" := "high" ]});
    ("verification", "Proof validation completed — All checks passed",
     Some {[ "validator" := "plonk"; "time" := "2.4s"; "gas" := "142000" ]});
    ("inference", "Text generation completed — No PII exposure detected",
     Some {[ "tokens" := "248"; "latency" := "1.2s"; "confidence" := "0.92" ]});
    ("proof", "Circuit compilation finished — Optimization level 3",
     Some {[ "constraints" := "982344"; "variables" := "451227" ]});
    ("system", "Periodic integrity check — No anomalies detected",
     Some {[ "checkType" := "full-scan"; "duration" := "45ms" ]});
    ("verification", "On-chain verification submitted — Waiting confirmation",
     Some {[ "network" := "solana-devnet"; "slot" := "283117882" ]});
    ("inference", "Model inference completed — Privacy preserved",
     Some {[ "batchSize" := "16"; "throughput" := "124 tokens/s" ]}) ].

(** What the recorder keeps true of every entry of its log: the risk level
    is the one of the rule for the type and the metadata of the entry, and
    the status is one of the three that [recordEvent] draws from. *)
Definition entry_inv (e : AuditEntry) : Prop :=
  riskLevel e = calculateRiskLevel (type e) (meta e)
  ∧ status e ∈ [Verified; Recorded; Pending].

#[global] Instance RiskLevel_eq_dec : EqDecision RiskLevel.
Proof. solve_decision. Defined.

(** The number of entries of a log with a given risk level. *)
Definition risk_count (r : RiskLevel) (log : list AuditEntry) : nat :=
  length (filter (λ e, riskLevel e = r) log).

(** A counter of a count object of [getStats], for a key that [n] entries
    have: absent when there is none. *)
Definition counter (n : nat) : option nat :=
  if (n =? 0)%nat then None else Some n.

(** *** calculateHealth of cipherSync.ts

    The numbers are rationals, which the finite floating-point numbers are,
    with the same order; NaN is left out. *)

Inductive Health := Optimal | Stable | Degraded | Critical.

Definition calculateHealth (accuracy latency : Q) (integrity : bool) : Health :=
  if negb integrity then Critical
  else if Qle_bool 99 accuracy && negb (Qle_bool 500 latency) then Optimal
  else if Qle_bool 98 accuracy && negb (Qle_bool 1000 latency) then Stable
  else if Qle_bool 95 accuracy then Degraded
  else Critical.

(** The health levels from the worst to the best. *)
Definition health_rank (h : Health) : nat :=
  match h with
  | Critical => 0 | Degraded => 1 | Stable => 2 | Optimal => 3
  end.

(** * Properties *)

(** ** Lists: slices and the newest entries *)

Section Lists.
Context {A : Type}.
Implicit Types l k : list A.

Lemma newest_length n l : length (newest n l) = (n `min` length l)%nat.
Proof. unfold newest. rewrite length_drop. lia. Qed.

Lemma newest_all n l : (length l ≤ n)%nat → newest n l = l.
Proof.
  intros H. unfold newest. replace (length l - n)%nat with 0%nat by lia.
  apply drop_0.
Qed.

Lemma newest_suffix n l : newest n l `suffix_of` l.
Proof. apply suffix_drop. Qed.

Lemma newest_app_newest n l k : newest n (newest n l ++ k) = newest n (l ++ k).
Proof.
  destruct (decide (length l ≤ n)%nat) as [Hle|Hgt].
  - by rewrite (newest_all n l).
  - unfold newest. rewrite !length_app, length_drop.
    set (a := (length l - n)%nat).
    replace (length l - a + length k - n)%nat with (length k) by lia.
    replace (length l + length k - n)%nat with (a + length k)%nat by lia.
    rewrite <- drop_drop. f_equal. rewrite drop_app_le by lia. done.
Qed.

Lemma newest_app_ge n l k : (n ≤ length k)%nat → newest n (l ++ k) = newest n k.
Proof.
  intros H. unfold newest. rewrite length_app.
  replace (length l + length k - n)%nat with (length l + (length k - n))%nat by lia.
  by rewrite drop_app_add.
Qed.

Lemma slice_neg (m : Z) l : 0 < m → slice (- m) l = newest (Z.to_nat m) l.
Proof.
  intros Hm. unfold slice, newest.
  destruct (Z.ltb_spec (- m) 0) as [_|?]; [|lia]. f_equal. lia.
Qed.

Lemma slice_0 l : slice 0 l = l.
Proof. unfold slice. simpl. rewrite Z.min_l by lia. apply drop_0. Qed.

End Lists.

(** ** The retention policy *)

Section Retention.
Variable cfg : AuditConfig.
Hypothesis max_pos : 0 < Config.maxEntries cfg.

Let cap := Z.to_nat (Config.maxEntries cfg).

Lemma retain_newest (log : list AuditEntry) : retain cfg log = newest cap log.
Proof.
  unfold retain. destruct (Z.gtb_spec (Z.of_nat (length log)) (Config.maxEntries cfg)).
  - by apply slice_neg.
  - symmetry. apply newest_all. unfold cap. lia.
Qed.

Lemma retain_length (log : list AuditEntry) :
  Z.of_nat (length (retain cfg log)) ≤ Config.maxEntries cfg.
Proof. rewrite retain_newest, newest_length. unfold cap. lia. Qed.

Lemma pushes_newest (es log : list AuditEntry) :
  (length log ≤ cap)%nat →
  foldl (λ log e, retain cfg (log ++ [e])) log es = newest cap (log ++ es).
Proof.
  revert log. induction es as [|e es IH]; intros log Hlen; simpl.
  - rewrite app_nil_r. symmetry. by apply newest_all.
  - rewrite IH.
    + rewrite retain_newest, newest_app_newest. by rewrite <- app_assoc.
    + rewrite retain_newest, newest_length. lia.
Qed.

End Retention.

(** ** The effect of a computation on the recorder *)

Lemma audit_lines_app out out' :
  audit_lines (out ++ out') = audit_lines out ++ audit_lines out'.
Proof. apply omap_app. Qed.

Section Effects.
Variable cfg : AuditConfig.
Variable rng : nat → Draw.
Implicit Types w : World.

Lemma effect_none w w' :
  auditLog (this w') = auditLog (this w) →
  audit_lines (console w') = audit_lines (console w) →
  this_sessionId (this w') = this_sessionId (this w) →
  startupTime (this w') = startupTime (this w) →
  effect cfg rng w w' [].
Proof. intros. constructor; simpl; rewrite ?app_nil_r; auto. Qed.

Lemma effect_trans w1 w2 w3 es es' :
  effect cfg rng w1 w2 es → effect cfg rng w2 w3 es' → effect cfg rng w1 w3 (es ++ es').
Proof.
  intros [L1 O1 S1 T1 F1 M1] [L2 O2 S2 T2 F2 M2]. constructor.
  - by rewrite foldl_app, <- L1.
  - by rewrite O2, O1, app_assoc.
  - congruence.
  - congruence.
  - apply Forall_app. split; [done|]. by rewrite <- S1.
  - by apply Forall_app.
Qed.


Lemma retain_Forall (P : AuditEntry → Prop) log :
  Forall P log → Forall P (retain cfg log).
Proof.
  intros H. unfold retain, slice.
  destruct (_ >? _); [by apply Forall_drop | done].
Qed.

Lemma effect_session w w' es :
  effect cfg rng w w' es → session_inv w → session_inv w'.
Proof.
  intros [L _ S _ F _] Hinv. unfold session_inv in *. rewrite L, S. clear L S.
  revert Hinv. generalize (auditLog (this w)) as log.
  induction F as [|e es He _ IH]; intros log Hlog; simpl; [done|].
  apply IH, retain_Forall, Forall_app. split; [done|]. by constructor.
Qed.

End Effects.

(** ** Running recordEvent *)

Ltac run_monad :=
  unfold bind, draw, gets, modify, logToConsole, ret; cbn -[recordEvent].

Ltac effect_tac :=
  constructor; simpl; rewrite ?audit_lines_app; simpl; rewrite ?app_nil_r; auto;
  repeat constructor; eexists; reflexivity.

Section Runs.
Variable cfg : AuditConfig.
Variable rng : nat → Draw.
Implicit Types (w : World) (d : nat) (meta : option (gmap string string)).

Lemma recordEvent_quiet d ty msg meta w :
  export_due cfg (length (retain cfg (auditLog (this w) ++ [created rng w ty msg meta]))) = false →
  recordEvent cfg rng (S d) ty msg meta w = Some (tt, pushed cfg (created rng w ty msg meta) w).
Proof.
  intros Hdue. cbn [recordEvent]. run_monad. unfold created in Hdue.
  by rewrite Hdue.
Qed.

Lemma recordEvent_busy d ty msg meta w :
  export_due cfg (length (retain cfg (auditLog (this w) ++ [created rng w ty msg meta]))) = true →
  isExporting (this w) = true →
  recordEvent cfg rng (S d) ty msg meta w =
    Some (tt, print (Notice "Export already in progress")
                (advance (pushed cfg (created rng w ty msg meta) w))).
Proof.
  intros Hdue Hbusy. cbn [recordEvent]. run_monad. unfold created in Hdue.
  rewrite Hdue. unfold export_due in Hdue. apply andb_prop in Hdue as [Hauto _].
  unfold autoExport. rewrite Hauto. cbn -[recordEvent].
  unfold exportAuditLog_begin. run_monad. by rewrite Hbusy.
Qed.

(** While an export is in progress a [recordEvent] creates its entry and
    nothing else, at any call depth. *)
Lemma recordEvent_locked d ty msg meta w :
  isExporting (this w) = true →
  ∃ w', recordEvent cfg rng (S d) ty msg meta w = Some (tt, w')
      ∧ effect cfg rng w w' [created rng w ty msg meta]
      ∧ isExporting (this w') = true.
Proof.
  intros Hbusy.
  destruct (export_due cfg (length (retain cfg (auditLog (this w) ++ [created rng w ty msg meta]))))
    eqn:Hdue.
  - eexists. split; [by apply recordEvent_busy|]. split; [effect_tac | done].
  - eexists. split; [by apply recordEvent_quiet|]. split; [effect_tac | done].
Qed.

(** The general case: the entry of the call, and after it the notice of an
    export when one is due and none is in progress. *)
Lemma recordEvent_effect d ty msg meta w :
  ∃ w' extra,
    recordEvent cfg rng (S (S d)) ty msg meta w = Some (tt, w')
    ∧ effect cfg rng w w' (created rng w ty msg meta :: extra)
    ∧ follow_up cfg w w'
        (length (retain cfg (auditLog (this w) ++ [created rng w ty msg meta]))) extra.
Proof.
  set (e := created rng w ty msg meta).
  destruct (export_due cfg (length (retain cfg (auditLog (this w) ++ [e])))) eqn:Hdue.
  2:{ exists (pushed cfg e w), []. split; [by apply recordEvent_quiet|].
      split; [effect_tac | by left]. }
  destruct (isExporting (this w)) eqn:Hbusy.
  { eexists _, []. split; [by apply recordEvent_busy|].
    split; [effect_tac | by left]. }
  set (w2 := advance (set_isExporting true (advance (pushed cfg e w)))).
  set (exportId := generateId (rng (S (S (tick w)))) "EXP").
  set (note := Some ({[ "records" := pretty (length (auditLog (this w2)));
                        "format" := "JSON" ]} : gmap string string)).
  destruct (recordEvent_locked d "system" ("Starting audit log export: " +:+ exportId) note w2)
    as (w3 & Hrun & Heff & Hbusy3); [done|].
  exists w3, [created rng w2 "system" ("Starting audit log export: " +:+ exportId) note].
  split.
  - pose proof Hdue as Hdue'. unfold e, created in Hdue'.
    remember (S d) as d' eqn:Hd'.
    cbn [recordEvent]. run_monad. rewrite Hdue'.
    unfold export_due in Hdue'. apply andb_prop in Hdue' as [Hauto _].
    unfold autoExport. rewrite Hauto. cbn -[recordEvent].
    unfold exportAuditLog_begin. run_monad. rewrite Hbusy. cbn -[recordEvent].
    match goal with
    | |- context [recordEvent cfg rng d' ?a ?b ?c ?x] =>
        change (recordEvent cfg rng d' a b c x)
          with (recordEvent cfg rng d' "system"
                  ("Starting audit log export: " +:+ exportId) note w2)
    end.
    by rewrite Hrun.
  - split.
    + apply (effect_trans cfg rng w w2 w3 [e] _); [effect_tac | done].
    + right. eexists. split; [done|]. by repeat split.
Qed.

(** A sequence of calls: every event gets its entry, in the order of the
    calls. *)
Lemma recordEvents_effect d events w :
  ∃ w' es,
    recordEvents cfg rng (S (S d)) events w = Some (tt, w')
    ∧ effect cfg rng w w' es
    ∧ events `sublist_of` ((λ e, (type e, message e, meta e)) <$> es).
Proof.
  revert w. induction events as [|[[ty msg] meta] rest IH]; intros w.
  - exists w, []. split; [done|]. split; [by apply effect_none | done].
  - destruct (recordEvent_effect d ty msg meta w) as (w1 & extra & Hrun & Heff & _).
    destruct (IH w1) as (w' & es & Hrest & Heff' & Hsub).
    exists w', ((created rng w ty msg meta :: extra) ++ es). split; [|split].
    + cbn [recordEvents]. unfold bind at 1. by rewrite Hrun.
    + by eapply effect_trans.
    + rewrite fmap_app, fmap_cons. cbn [app]. apply sublist_skip.
      by apply sublist_inserts_l.
Qed.

Lemma getAuditTrail_effect d limit w :
  let records := trail limit (auditLog (this w)) in
  let telemetry :=
    created rng (advance w) "system"
      ("Audit trail queried - " +:+ pretty (length records) +:+ " records retrieved")
      (Some {[ "limit" := limit_str limit;
               "queryTime" := fixed2 (rng (tick w)) +:+ "ms" ]}) in
  ∃ w' extra,
    getAuditTrail cfg rng (S (S d)) limit w = Some (records, w')
    ∧ effect cfg rng w w' (telemetry :: extra)
    ∧ follow_up cfg w w'
        (length (retain cfg (auditLog (this w) ++ [telemetry]))) extra.
Proof.
  intros records telemetry.
  destruct (recordEvent_effect d "system"
              ("Audit trail queried - " +:+ pretty (length records) +:+ " records retrieved")
              (Some {[ "limit" := limit_str limit;
                       "queryTime" := fixed2 (rng (tick w)) +:+ "ms" ]}) (advance w))
    as (w' & extra & Hrun & Heff & Hfol).
  exists w', extra. split; [|split].
  - unfold getAuditTrail. run_monad. fold records.
    remember (S (S d)) as d'. unfold bind. by rewrite Hrun.
  - apply (effect_trans cfg rng w (advance w) w' [] _); [by apply effect_none | done].
  - done.
Qed.

Lemma constructor_effect d out t :
  let w0 := {| this := {| auditLog := [];
                          this_sessionId := generateSessionId (rng t);
                          isExporting := false;
                          startupTime := now (rng t) |};
               console := out; tick := S t |} in
  ∃ w' extra,
    constructor cfg rng (S (S d)) out t = Some w'
    ∧ effect cfg rng w0 w'
        (created rng w0 "system" "Privacy Audit System initialized"
           (Some {[ "version" := "2.1.0";
                    "encryption" := Encryption_str (Config.encryptionLevel cfg);
                    "sessionId" := generateSessionId (rng t) ]}) :: extra)
    ∧ (length extra ≤ 1)%nat.
Proof.
  intros w0.
  destruct (recordEvent_effect d "system" "Privacy Audit System initialized"
              (Some {[ "version" := "2.1.0";
                       "encryption" := Encryption_str (Config.encryptionLevel cfg);
                       "sessionId" := generateSessionId (rng t) ]}) w0)
    as (w' & extra & Hrun & Heff & Hfol).
  exists w', extra. split; [|split].
  - unfold constructor. fold w0. by rewrite Hrun.
  - done.
  - destruct Hfol as [[-> _]|(x & -> & _)]; simpl; lia.
Qed.

Lemma exportAuditLog_resume_effect d job fs_error w :
  ∃ w' es,
    exportAuditLog_resume cfg rng (S (S d)) job fs_error w = Some (tt, w')
    ∧ effect cfg rng w w' es
    ∧ isExporting (this w') = false.
Proof.
  unfold exportAuditLog_resume. remember (S (S d)) as d'.
  destruct fs_error as [err|]; run_monad; subst d'.
  - match goal with
    | |- context [recordEvent cfg rng _ ?a ?b ?c ?x] =>
        destruct (recordEvent_effect d a b c x) as (w1 & extra & Hrun & Heff & _)
    end.
    unfold bind. rewrite Hrun. eexists _, _. split; [reflexivity|]. split; [|done].
    eapply (effect_trans cfg rng w (advance w) _ []); [by apply effect_none|].
    eapply effect_trans; [exact Heff|]. effect_tac.
  - match goal with
    | |- context [recordEvent cfg rng _ ?a ?b ?c ?x] =>
        destruct (recordEvent_effect d a b c x) as (w1 & extra & Hrun & Heff & _)
    end.
    unfold bind. rewrite Hrun. eexists _, _. split; [reflexivity|]. split; [|done].
    eapply (effect_trans cfg rng w (advance w) _ []); [by apply effect_none|].
    eapply effect_trans; [exact Heff|]. effect_tac.
Qed.

End Runs.

(** ** The log after a computation, in closed form *)

Lemma newest_app_le {A} n (l k : list A) :
  (length k ≤ n)%nat → newest n (l ++ k) = newest (n - length k) l ++ k.
Proof.
  intros H. unfold newest. rewrite length_app, drop_app_le by lia.
  f_equal. f_equal. lia.
Qed.

Section ClosedForm.
Variable cfg : AuditConfig.
Variable rng : nat → Draw.
Hypothesis max_pos : 0 < Config.maxEntries cfg.
Implicit Types w : World.

Lemma effect_log_cons w w' e es :
  effect cfg rng w w' (e :: es) →
  auditLog (this w') = newest (Z.to_nat (Config.maxEntries cfg)) (auditLog (this w) ++ e :: es).
Proof.
  intros [L _ _ _ _ _]. rewrite L. simpl.
  rewrite pushes_newest by (done || (pose proof (retain_length cfg max_pos (auditLog (this w) ++ [e])); lia)).
  rewrite retain_newest by done. rewrite newest_app_newest. by rewrite <- app_assoc.
Qed.

Lemma effect_log w w' es :
  Z.of_nat (length (auditLog (this w))) ≤ Config.maxEntries cfg →
  effect cfg rng w w' es →
  auditLog (this w') = newest (Z.to_nat (Config.maxEntries cfg)) (auditLog (this w) ++ es).
Proof.
  intros Hlen [L _ _ _ _ _]. rewrite L. apply pushes_newest; [done | lia].
Qed.

(** An export is due only for a log of at least ten entries. *)
Lemma export_due_ten (log : list AuditEntry) e :
  export_due cfg (length (retain cfg (log ++ [e]))) = true →
  10 ≤ Config.maxEntries cfg.
Proof.
  unfold export_due. intros [_ Hrem%Z.eqb_eq]%andb_prop.
  rewrite retain_newest, newest_length, length_app in Hrem by done. simpl in Hrem.
  rewrite Z.rem_mod_nonneg in Hrem by lia.
  apply Z.mod_divide in Hrem; [|lia]. destruct Hrem as [q Hq]. lia.
Qed.

(** The entry of a call is in the log when the call returns: it is the last
    entry, or the one before the notice of an export. *)
Lemma follow_up_kept w w' (log : list AuditEntry) e extra :
  follow_up cfg w w' (length (retain cfg (log ++ [e]))) extra →
  newest (Z.to_nat (Config.maxEntries cfg)) (log ++ e :: extra)
  = newest (Z.to_nat (Config.maxEntries cfg) - S (length extra)) log ++ e :: extra.
Proof.
  intros Hfol. apply (newest_app_le _ log (e :: extra)).
  destruct Hfol as [[-> _]|(x & -> & _ & Hdue%export_due_ten & _)]; simpl; lia.
Qed.

End ClosedForm.

(** ** When an export starts *)

Section ExportStart.
Variable cfg : AuditConfig.
Variable rng : nat → Draw.
Implicit Types (w : World) (d : nat) (meta : option (gmap string string)).

(** A call on a recorder that is due for an export and has none in
    progress: the entry of the call, then the notice of the export. *)
Lemma recordEvent_starts_export d ty msg meta w :
  let e := created rng w ty msg meta in
  let w2 := advance (set_isExporting true (advance (pushed cfg e w))) in
  let x := created rng w2 "system"
             ("Starting audit log export: " +:+ generateId (rng (S (S (tick w)))) "EXP")
             (Some {[ "records" := pretty (length (auditLog (this w2)));
                      "format" := "JSON" ]}) in
  export_due cfg (length (retain cfg (auditLog (this w) ++ [e]))) = true →
  isExporting (this w) = false →
  ∃ w', recordEvent cfg rng (S (S d)) ty msg meta w = Some (tt, w')
        ∧ effect cfg rng w w' [e; x]
        ∧ isExporting (this w') = true.
Proof.
  intros e w2 x Hdue Hbusy.
  destruct (recordEvent_locked cfg rng d "system"
              ("Starting audit log export: " +:+ generateId (rng (S (S (tick w)))) "EXP")
              (Some {[ "records" := pretty (length (auditLog (this w2)));
                       "format" := "JSON" ]}) w2)
    as (w3 & Hrun & Heff & Hbusy3); [done|].
  exists w3. split; [|split; [|done]].
  - pose proof Hdue as Hdue'. unfold e, created in Hdue'.
    remember (S d) as d' eqn:Hd'.
    cbn [recordEvent]. run_monad. rewrite Hdue'.
    unfold export_due in Hdue'. apply andb_prop in Hdue' as [Hauto _].
    unfold autoExport. rewrite Hauto. cbn -[recordEvent].
    unfold exportAuditLog_begin. run_monad. rewrite Hbusy. cbn -[recordEvent].
    match goal with
    | |- context [recordEvent cfg rng d' ?a ?b ?c ?y] =>
        change (recordEvent cfg rng d' a b c y)
          with (recordEvent cfg rng d' "system"
                  ("Starting audit log export: " +:+ generateId (rng (S (S (tick w)))) "EXP")
                  (Some {[ "records" := pretty (length (auditLog (this w2)));
                           "format" := "JSON" ]}) w2)
    end.
    by rewrite Hrun.
  - apply (effect_trans cfg rng w w2 w3 [e] _); [effect_tac | done].
Qed.

(** Without the auto-export, or while an export is in progress, a call
    creates its entry and nothing else; one level of calls is enough. *)
Lemma recordEvent_single d ty msg meta w :
  Config.autoExport cfg = false ∨ isExporting (this w) = true →
  ∃ w', recordEvent cfg rng (S d) ty msg meta w = Some (tt, w')
        ∧ effect cfg rng w w' [created rng w ty msg meta]
        ∧ isExporting (this w') = isExporting (this w).
Proof.
  intros [Hoff|Hbusy].
  - exists (pushed cfg (created rng w ty msg meta) w). split; [|split; [effect_tac | done]].
    apply recordEvent_quiet. unfold export_due. by rewrite Hoff.
  - destruct (recordEvent_locked cfg rng d ty msg meta w Hbusy) as (w' & Hrun & Heff & Hb).
    exists w'. split; [done|]. split; [done|]. congruence.
Qed.

Lemma recordEvents_single d events w :
  Config.autoExport cfg = false ∨ isExporting (this w) = true →
  ∃ w' pushed,
    recordEvents cfg rng (S d) events w = Some (tt, w')
    ∧ effect cfg rng w w' pushed
    ∧ (λ e, (type e, message e, meta e)) <$> pushed = events
    ∧ isExporting (this w') = isExporting (this w).
Proof.
  revert w. induction events as [|[[ty msg] meta] rest IH]; intros w Hw.
  - exists w, []. split; [done|]. split; [by apply effect_none | done].
  - destruct (recordEvent_single d ty msg meta w Hw) as (w1 & Hrun & Heff & Hb).
    destruct (IH w1) as (w' & es & Hrest & Heff' & Hkeys & Hb').
    { rewrite Hb. exact Hw. }
    exists w', ([created rng w ty msg meta] ++ es). split_and!.
    + cbn [recordEvents]. unfold bind at 1. by rewrite Hrun.
    + by eapply effect_trans.
    + rewrite fmap_app, Hkeys. reflexivity.
    + congruence.
Qed.

End ExportStart.

(** Below ten entries, with the configuration of the source, nothing is
    due: a call pushes its entry and returns. *)
Lemma recordEvent_below_ten rng d ty msg meta (w : World) :
  (length (auditLog (this w)) < 9)%nat →
  recordEvent AUDIT_CONFIG rng (S d) ty msg meta w
  = Some (tt, pushed AUDIT_CONFIG (created rng w ty msg meta) w)
  ∧ auditLog (this (pushed AUDIT_CONFIG (created rng w ty msg meta) w))
    = auditLog (this w) ++ [created rng w ty msg meta].
Proof.
  intros Hlen. set (e := created rng w ty msg meta).
  assert (retain AUDIT_CONFIG (auditLog (this w) ++ [e]) = auditLog (this w) ++ [e]) as Hkeep.
  { rewrite retain_newest by done. apply newest_all. rewrite length_app. simpl. lia. }
  split; [|exact Hkeep].
  apply recordEvent_quiet. fold e. rewrite Hkeep, length_app. simpl length.
  unfold export_due. simpl Config.autoExport. rewrite andb_true_l.
  apply Z.eqb_neq. rewrite Z.rem_mod_nonneg by lia.
  rewrite Z.mod_small by lia. lia.
Qed.

Lemma recordEvents_below_ten rng d events (w : World) :
  (length (auditLog (this w)) + length events ≤ 9)%nat →
  ∃ w' pushed,
    recordEvents AUDIT_CONFIG rng (S d) events w = Some (tt, w')
    ∧ auditLog (this w') = auditLog (this w) ++ pushed
    ∧ (λ e, (type e, message e, meta e)) <$> pushed = events
    ∧ isExporting (this w') = isExporting (this w).
Proof.
  revert w. induction events as [|[[ty msg] meta] rest IH]; intros w Hlen.
  - exists w, []. by rewrite app_nil_r.
  - simpl in Hlen.
    destruct (recordEvent_below_ten rng d ty msg meta w) as [Hrun Hlog]; [lia|].
    destruct (IH (pushed AUDIT_CONFIG (created rng w ty msg meta) w))
      as (w' & es & Hrest & Hlog' & Hkeys & Hb).
    { rewrite Hlog, length_app. simpl. lia. }
    exists w', (created rng w ty msg meta :: es). split_and!.
    + cbn [recordEvents]. unfold bind at 1. by rewrite Hrun.
    + rewrite Hlog', Hlog, <- app_assoc. done.
    + rewrite fmap_cons, Hkeys. done.
    + rewrite Hb. done.
Qed.

(** ** What a call pushes, exactly *)

(** A call pushes its entry and, exactly when the log is then due for an
    export and none is in progress, the notice of that export after it. *)
Lemma recordEvent_exact cfg rng d ty msg meta (w : World) :
  0 < Config.maxEntries cfg →
  ∃ w' extra,
    let n := (Z.to_nat (Config.maxEntries cfg) `min` (length (auditLog (this w)) + 1))%nat in
    let starts := export_due cfg n && negb (isExporting (this w)) in
    recordEvent cfg rng (S (S d)) ty msg meta w = Some (tt, w')
    ∧ effect cfg rng w w' (created rng w ty msg meta :: extra)
    ∧ length extra = (if starts then 1 else 0)%nat
    ∧ Forall (λ x, type x = "system"
                   ∧ message x = "Starting audit log export: "
                                 +:+ generateId (rng (S (S (tick w)))) "EXP") extra
    ∧ isExporting (this w') = (isExporting (this w) || starts).
Proof.
  intros Hpos. cbn zeta.
  assert (length (retain cfg (auditLog (this w) ++ [created rng w ty msg meta]))
          = (Z.to_nat (Config.maxEntries cfg) `min` (length (auditLog (this w)) + 1))%nat)
    as <- by (by rewrite retain_newest, newest_length, length_app).
  destruct (export_due cfg _) eqn:Hdue; [destruct (isExporting (this w)) eqn:Hbusy|].
  - eexists _, []. split; [by apply recordEvent_busy|].
    split; [effect_tac|]. split; [done|]. split; [constructor | done].
  - destruct (recordEvent_starts_export cfg rng d ty msg meta w Hdue Hbusy)
      as (w' & Hrun & Heff & Hb).
    eexists w', [_]. split; [exact Hrun|]. split; [exact Heff|].
    split; [done|]. split; [by repeat constructor | done].
  - eexists _, []. split; [by apply recordEvent_quiet|].
    split; [effect_tac|]. split; [done|].
    split; [constructor|]. by rewrite orb_false_r.
Qed.

(** An export starts only in a log that has room for ten entries, so the
    entry of the call and the notice both fit. *)
Lemma export_start_fits cfg (n : nat) (busy : bool) (extra : list AuditEntry) :
  0 < Config.maxEntries cfg →
  let m := (Z.to_nat (Config.maxEntries cfg) `min` (n + 1))%nat in
  length extra = (if export_due cfg m && negb busy then 1 else 0)%nat →
  (S (length extra) ≤ Z.to_nat (Config.maxEntries cfg))%nat.
Proof.
  intros Hpos m ->. destruct (export_due cfg m) eqn:Hdue; simpl; [|lia].
  destruct busy; simpl; [lia|].
  unfold export_due in Hdue. apply andb_prop in Hdue as [_ Hrem%Z.eqb_eq].
  rewrite Z.rem_mod_nonneg in Hrem by lia.
  apply Z.mod_divide in Hrem; [|lia]. destruct Hrem as [q Hq]. unfold m in Hq. lia.
Qed.

(** The same for [getAuditTrail], whose call of [recordEvent] comes after one
    draw of its own. *)
Lemma getAuditTrail_exact cfg rng d limit (w : World) :
  0 < Config.maxEntries cfg →
  ∃ w' extra,
    let records := trail limit (auditLog (this w)) in
    let telemetry :=
      created rng (advance w) "system"
        ("Audit trail queried - " +:+ pretty (length records) +:+ " records retrieved")
        (Some {[ "limit" := limit_str limit;
                 "queryTime" := fixed2 (rng (tick w)) +:+ "ms" ]}) in
    let n := (Z.to_nat (Config.maxEntries cfg) `min` (length (auditLog (this w)) + 1))%nat in
    let starts := export_due cfg n && negb (isExporting (this w)) in
    getAuditTrail cfg rng (S (S d)) limit w = Some (records, w')
    ∧ effect cfg rng w w' (telemetry :: extra)
    ∧ length extra = (if starts then 1 else 0)%nat
    ∧ Forall (λ x, type x = "system"
                   ∧ message x = "Starting audit log export: "
                                 +:+ generateId (rng (S (S (S (tick w))))) "EXP") extra
    ∧ isExporting (this w') = (isExporting (this w) || starts).
Proof.
  intros Hpos.
  destruct (recordEvent_exact cfg rng d "system"
              ("Audit trail queried - "
               +:+ pretty (length (trail limit (auditLog (this w)))) +:+ " records retrieved")
              (Some {[ "limit" := limit_str limit;
                       "queryTime" := fixed2 (rng (tick w)) +:+ "ms" ]}) (advance w) Hpos)
    as (w' & extra & Hrun & Heff & Hextra & Hnote & Hflag).
  exists w', extra. cbn zeta. split; [|split; [|done]].
  - unfold getAuditTrail. run_monad.
    remember (S (S d)) as d'. unfold bind. by rewrite Hrun.
  - apply (effect_trans cfg rng w (advance w) w' [] _); [by apply effect_none | done].
Qed.

(** A sequence of calls pushes one block per call. *)
Lemma recordEvents_blocks cfg rng d events (w : World) :
  0 < Config.maxEntries cfg →
  ∃ w' blocks,
    recordEvents cfg rng (S (S d)) events w = Some (tt, w')
    ∧ effect cfg rng w w' (concat blocks)
    ∧ Forall2 call_pushes events blocks
    ∧ events `sublist_of` ((λ e, (type e, message e, meta e)) <$> concat blocks).
Proof.
  intros Hpos. revert w.
  induction events as [|[[ty msg] meta] rest IH]; intros w.
  - exists w, []. split; [done|]. split; [by apply effect_none|]. split; [constructor | done].
  - destruct (recordEvent_exact cfg rng d ty msg meta w Hpos)
      as (w1 & extra & Hrun & Heff & Hextra & Hnote & _).
    destruct (IH w1) as (w' & blocks & Hrest & Heff' & Hblocks & Hsub).
    exists w', ((created rng w ty msg meta :: extra) :: blocks). split_and!.
    + cbn [recordEvents]. unfold bind at 1. by rewrite Hrun.
    + cbn [concat]. by eapply effect_trans.
    + constructor; [|done]. exists (created rng w ty msg meta), extra.
      split; [done|]. split; [done|]. split.
      * cbn zeta in Hextra. rewrite Hextra. destruct (_ && _); lia.
      * eapply Forall_impl; [exact Hnote|]. intros x [Hx Hm]. eauto.
    + cbn [concat]. rewrite fmap_app, fmap_cons. cbn [app]. apply sublist_skip.
      by apply sublist_inserts_l.
Qed.

(** The entries a computation pushed are those it displayed: they are
    determined by the worlds before and after. *)
Lemma effect_unique cfg rng (w w' : World) es es' :
  effect cfg rng w w' es → effect cfg rng w w' es' → es = es'.
Proof.
  intros [_ O1 _ _ _ _] [_ O2 _ _ _ _]. rewrite O1 in O2.
  by apply app_inv_head in O2.
Qed.

Lemma recordEvents_app cfg rng d events events' (w w1 : World) :
  recordEvents cfg rng d events w = Some (tt, w1) →
  recordEvents cfg rng d (events ++ events') w = recordEvents cfg rng d events' w1.
Proof.
  revert w. induction events as [|[[ty msg] meta] rest IH]; intros w Hrun.
  - by injection Hrun as ->.
  - cbn [recordEvents app] in *. unfold bind at 1 in Hrun. unfold bind at 1.
    destruct (recordEvent cfg rng d ty msg meta w) as [[[] w2]|]; [|discriminate].
    by apply IH.
Qed.

(** ** C1: the retention policy *)

(** C1, as the code has it.  With a positive maximum and a log within it,
    (1) a call of [recordEvent] pushes its entry and, exactly when the log
    is then due for an export (the auto-export is on and the length after
    the push is a multiple of ten) and none is in progress, the notice of
    that export after it; the log is then the newest [maxEntries] entries
    of the old log followed by what was pushed, that is a suffix of the old
    log, the entry and the notice if any, in order and unchanged; its
    length is the smaller of the maximum and the old length plus the number
    of pushes; the entry of the call is the last one when no export starts;
    (2) a sequence of calls pushes one such block per call, and the log is
    the newest [maxEntries] of the old log followed by all blocks; after
    at least [maxEntries] calls it is full and holds the newest
    [maxEntries] pushed entries, notices included; when the auto-export is
    off or an export is in progress the blocks are the entries of the
    calls alone. *)
Theorem recordEvent_retention :
  (∀ cfg rng d ty msg meta w,
     0 < Config.maxEntries cfg →
     Z.of_nat (length (auditLog (this w))) ≤ Config.maxEntries cfg →
     ∃ w' extra,
       let cap := Z.to_nat (Config.maxEntries cfg) in
       let e := created rng w ty msg meta in
       let starts :=
         export_due cfg (cap `min` (length (auditLog (this w)) + 1))%nat
         && negb (isExporting (this w)) in
       recordEvent cfg rng (S (S d)) ty msg meta w = Some (tt, w')
       ∧ audit_lines (console w') = audit_lines (console w) ++ e :: extra
       ∧ length extra = (if starts then 1 else 0)%nat
       ∧ Forall (λ x, type x = "system"
                      ∧ message x = "Starting audit log export: "
                                    +:+ generateId (rng (S (S (tick w)))) "EXP") extra
       ∧ auditLog (this w') = newest cap (auditLog (this w) ++ e :: extra)
       ∧ auditLog (this w')
         = newest (cap - S (length extra)) (auditLog (this w)) ++ e :: extra
       ∧ length (auditLog (this w'))
         = (cap `min` (length (auditLog (this w)) + 1 + length extra))%nat
       ∧ Z.of_nat (length (auditLog (this w'))) ≤ Config.maxEntries cfg
       ∧ (starts = false → last (auditLog (this w')) = Some e))
  ∧
  (∀ cfg rng d events w,
     0 < Config.maxEntries cfg →
     Z.of_nat (length (auditLog (this w))) ≤ Config.maxEntries cfg →
     ∃ w' blocks,
       let cap := Z.to_nat (Config.maxEntries cfg) in
       let pushed := concat blocks in
       recordEvents cfg rng (S (S d)) events w = Some (tt, w')
       ∧ Forall2 call_pushes events blocks
       ∧ audit_lines (console w') = audit_lines (console w) ++ pushed
       ∧ auditLog (this w') = newest cap (auditLog (this w) ++ pushed)
       ∧ Z.of_nat (length (auditLog (this w'))) ≤ Config.maxEntries cfg
       ∧ ((cap ≤ length events)%nat →
          auditLog (this w') = newest cap pushed
          ∧ length (auditLog (this w')) = cap)
       ∧ (Config.autoExport cfg = false ∨ isExporting (this w) = true →
          (λ e, (type e, message e, meta e)) <$> pushed = events)).
Proof.
  split.
  - intros cfg rng d ty msg meta w Hpos Hlen.
    destruct (recordEvent_exact cfg rng d ty msg meta w Hpos)
      as (w' & extra & Hrun & Heff & Hextra & Hnote & _).
    exists w', extra. cbn zeta in *.
    pose proof (effect_log_cons cfg rng Hpos _ _ _ _ Heff) as Hlog.
    pose proof (export_start_fits cfg _ _ extra Hpos Hextra) as Hfit.
    split; [done|]. split; [by destruct Heff|]. split; [done|]. split; [done|].
    split; [done|].
    split; [rewrite Hlog; apply (newest_app_le _ _ (_ :: extra)); simpl; lia|].
    split; [rewrite Hlog, newest_length, length_app; simpl; lia|].
    split; [rewrite Hlog, newest_length; lia|].
    intros Hquiet. rewrite Hquiet in Hextra. apply nil_length_inv in Hextra as ->.
    rewrite Hlog, (newest_app_le _ _ [_]) by (simpl; lia). apply last_snoc.
  - intros cfg rng d events w Hpos Hlen.
    destruct (recordEvents_blocks cfg rng d events w Hpos)
      as (w' & blocks & Hrun & Heff & Hblocks & Hsub).
    exists w', blocks. cbn zeta.
    assert (auditLog (this w') = newest (Z.to_nat (Config.maxEntries cfg))
              (auditLog (this w) ++ concat blocks)) as Hlog by (by eapply effect_log).
    split; [done|]. split; [done|]. split; [by destruct Heff|]. split; [done|].
    split; [rewrite Hlog, newest_length; lia|]. split.
    + intros Hmany. apply sublist_length in Hsub. rewrite length_fmap in Hsub.
      rewrite Hlog. split; [apply newest_app_ge; lia|].
      rewrite newest_length, length_app. lia.
    + intros Hquiet.
      destruct (recordEvents_single cfg rng (S d) events w Hquiet)
        as (w'' & es & Hrun' & Heff' & Hkeys & _).
      rewrite Hrun in Hrun'. injection Hrun' as <-.
      by rewrite (effect_unique cfg rng w w' _ _ Heff Heff').
Qed.

(** The ninth call on a new recorder of the source: the log has room, the
    call pushes its entry and the notice of the first export, and the log
    has eleven entries. *)
Lemma recordEvent_retention_witness :
  ∃ w0 w8 w9 (extra : list AuditEntry),
    constructor AUDIT_CONFIG rng0 2 [] 0 = Some w0
    ∧ recordEvents AUDIT_CONFIG rng0 2 demo_events w0 = Some (tt, w8)
    ∧ recordEvent AUDIT_CONFIG rng0 2 "system" "Memory optimized"
        (Some {[ "iteration" := "1" ]}) w8 = Some (tt, w9)
    ∧ length extra = 1%nat
    ∧ auditLog (this w9)
      = auditLog (this w8)
        ++ created rng0 w8 "system" "Memory optimized" (Some {[ "iteration" := "1" ]})
           :: extra
    ∧ length (auditLog (this w9)) = 11%nat.
Proof.
  assert (∃ w0 w8,
            constructor AUDIT_CONFIG rng0 2 [] 0 = Some w0
            ∧ recordEvents AUDIT_CONFIG rng0 2 demo_events w0 = Some (tt, w8)
            ∧ length (auditLog (this w8)) = 9%nat
            ∧ isExporting (this w8) = false)
    as (w0 & w8 & Hnew & Hrun & Hlen & Hidle).
  { eexists _, _. split; [vm_compute; reflexivity|].
    split; [vm_compute; reflexivity|]. split; reflexivity. }
  destruct (proj1 recordEvent_retention AUDIT_CONFIG rng0 0%nat "system"
              "Memory optimized" (Some {[ "iteration" := "1" ]}) w8)
    as (w9 & extra & Hrun9 & _ & Hextra & _ & _ & Hlog & Hlen9 & _);
    [reflexivity | rewrite Hlen; simpl; lia |].
  cbn zeta in *. rewrite Hlen, Hidle in Hextra.
  change (length extra = 1%nat) in Hextra.
  exists w0, w8, w9, extra. split; [exact Hnew|]. split; [exact Hrun|].
  split; [exact Hrun9|]. split; [exact Hextra|]. split.
  - rewrite Hlog. f_equal. apply newest_all. rewrite Hlen, Hextra.
    change (Config.maxEntries AUDIT_CONFIG) with 10000. lia.
  - rewrite Hlen9, Hlen, Hextra.
    change (Config.maxEntries AUDIT_CONFIG) with 10000. lia.
Defined.

(** C1 as stated fails in the configuration of the source.  The ninth call
    on a new recorder leaves the notice of the first export after its
    entry, so the new entry is not at the end; and after 10001 calls the
    log has its 10000 entries but that notice, which no caller appended, is
    still one of them: the log is not the 10000 most recently appended
    entries. *)
Lemma retention_keeps_export_notice :
  ∃ w0 w9 x w,
    constructor AUDIT_CONFIG rng0 2 [] 0 = Some w0
    ∧ recordEvents AUDIT_CONFIG rng0 2 (replicate 9 ("proof", "E", None)) w0
      = Some (tt, w9)
    ∧ last (auditLog (this w9)) = Some x
    ∧ type x = "system"
    ∧ message x = "Starting audit log export: EXP-12-K3X9"
    ∧ recordEvents AUDIT_CONFIG rng0 2
        (replicate (Z.to_nat 10001) ("proof", "E", None)) w0 = Some (tt, w)
    ∧ Z.of_nat (length (auditLog (this w))) = 10000
    ∧ x ∈ auditLog (this w).
Proof.
  assert (∃ w0 w9 x,
            constructor AUDIT_CONFIG rng0 2 [] 0 = Some w0
            ∧ recordEvents AUDIT_CONFIG rng0 2 (replicate 9 ("proof", "E", None)) w0
              = Some (tt, w9)
            ∧ last (auditLog (this w9)) = Some x
            ∧ type x = "system"
            ∧ message x = "Starting audit log export: EXP-12-K3X9"
            ∧ length (auditLog (this w9)) = 11%nat
            ∧ isExporting (this w9) = true)
    as (w0 & w9 & x & Hnew & Hrun9 & Hlast & Hty & Hmsg & Hlen9 & Hbusy).
  { eexists _, _, _. split; [vm_compute; reflexivity|].
    split; [vm_compute; reflexivity|]. split; [vm_compute; reflexivity|].
    split; [reflexivity|]. split; [vm_compute; reflexivity|].
    split; reflexivity. }
  destruct (recordEvents_single AUDIT_CONFIG rng0 1
              (replicate (Z.to_nat 9992) ("proof", "E", None)) w9)
    as (w & es & Hrun & Heff & Hkeys & _); [by right|].
  assert (length es = Z.to_nat 9992) as Hes
    by (by rewrite <- (length_fmap (λ e, (type e, message e, meta e))), Hkeys,
          length_replicate).
  apply last_Some in Hlast as [l Hl].
  assert (length l = 10%nat) as Hl10
    by (rewrite Hl, length_app in Hlen9; simpl in Hlen9; lia).
  assert (auditLog (this w) = drop 3 l ++ [x] ++ es) as Hlog.
  { rewrite (effect_log AUDIT_CONFIG rng0 eq_refl w9 w es)
      by first [exact Heff | rewrite Hlen9; simpl; lia].
    unfold newest. rewrite Hl, <- app_assoc, !length_app, Hes, Hl10.
    change (Config.maxEntries AUDIT_CONFIG) with 10000.
    change (length [x]) with 1%nat.
    replace (10 + (1 + Z.to_nat 9992) - Z.to_nat 10000)%nat with 3%nat by lia.
    apply drop_app_le. lia. }
  exists w0, w9, x, w. split; [exact Hnew|]. split; [exact Hrun9|].
  split; [by rewrite Hl, last_snoc|]. split; [exact Hty|]. split; [exact Hmsg|].
  split; [|split].
  - replace (Z.to_nat 10001) with (9 + Z.to_nat 9992)%nat by lia.
    rewrite replicate_add. by rewrite (recordEvents_app _ _ _ _ _ _ _ Hrun9).
  - rewrite Hlog, !length_app, length_drop, Hl10, Hes. simpl. lia.
  - rewrite Hlog. apply elem_of_app. right. apply elem_of_app. left.
    apply list_elem_of_here.
Qed.

(** ** C2: the risk level *)

Lemma calculateRiskLevel_spec ty meta :
  calculateRiskLevel ty meta = spec_riskLevel ty meta.
Proof.
  unfold calculateRiskLevel, spec_riskLevel, category_of, meta_is.
  repeat case_bool_decide; subst; try done; destruct meta; simpl in *;
    repeat case_bool_decide; congruence.
Qed.

(** C2. The risk level of a created entry is [calculateRiskLevel] of the
    category and the metadata of the call, which is the rule of the
    specification ([spec_riskLevel]); the entry is created, displayed and
    pushed with that level whatever the recorder, the oracle, the
    configuration and the message are, so two calls with the same category
    and metadata get the same level. *)
Theorem riskLevel_pure :
  (∀ ty meta, calculateRiskLevel ty meta = spec_riskLevel ty meta)
  ∧ (∀ cfg rng d ty msg meta w,
       ∃ w' extra,
         recordEvent cfg rng (S (S d)) ty msg meta w = Some (tt, w')
         ∧ audit_lines (console w')
           = audit_lines (console w) ++ created rng w ty msg meta :: extra
         ∧ riskLevel (created rng w ty msg meta) = spec_riskLevel ty meta)
  ∧ (∀ rng1 rng2 w1 w2 ty msg1 msg2 meta,
       riskLevel (created rng1 w1 ty msg1 meta)
       = riskLevel (created rng2 w2 ty msg2 meta)).
Proof.
  split; [exact calculateRiskLevel_spec|]. split.
  - intros cfg rng d ty msg meta w.
    destruct (recordEvent_effect cfg rng d ty msg meta w) as (w' & extra & Hrun & Heff & _).
    exists w', extra. split; [done|]. split; [by destruct Heff|].
    apply calculateRiskLevel_spec.
  - reflexivity.
Qed.

(** ** C3: reading the log back *)

(** What [getAuditTrail] returns for a positive limit and for no limit. *)
Lemma trail_window (log : list AuditEntry) :
  (∀ k, 0 < k →
     trail (Some k) log = newest (Z.to_nat k) log
     ∧ length (trail (Some k) log) = (Z.to_nat k `min` length log)%nat
     ∧ trail (Some k) log `suffix_of` log)
  ∧ trail None log = log.
Proof.
  split; [|done]. intros k Hk. unfold trail.
  destruct (Z.eqb_spec k 0) as [->|_]; [lia|].
  rewrite slice_neg by done.
  split; [done|]. split; [apply newest_length | apply newest_suffix].
Qed.

Lemma getAuditTrail_window cfg rng d (w : World) :
  (∀ k, 0 < k →
     ∃ w', getAuditTrail cfg rng (S (S d)) (Some k) w
           = Some (newest (Z.to_nat k) (auditLog (this w)), w'))
  ∧ ∃ w', getAuditTrail cfg rng (S (S d)) None w = Some (auditLog (this w), w').
Proof.
  split.
  - intros k Hk.
    destruct (getAuditTrail_effect cfg rng d (Some k) w) as (w' & extra & Hrun & _).
    exists w'. rewrite Hrun. by rewrite (proj1 (proj1 (trail_window _) k Hk)).
  - destruct (getAuditTrail_effect cfg rng d None w) as (w' & extra & Hrun & _).
    by exists w'.
Qed.

(** C3, the limit zero.  [getAuditTrail(0)] takes the branch of the absent
    limit and returns the whole log, in every recorder; on a new recorder
    that is the bootstrap entry, not the empty sequence.  (For a positive
    limit and for no limit the result is as the claim says, see
    [getAuditTrail_window].) *)
Theorem getAuditTrail_zero_returns_all :
  (∀ cfg rng d w,
     ∃ w', getAuditTrail cfg rng (S (S d)) (Some 0) w = Some (auditLog (this w), w'))
  ∧ (∃ w records w',
       constructor AUDIT_CONFIG rng0 2 [] 0 = Some w
       ∧ getAuditTrail AUDIT_CONFIG rng0 2 (Some 0) w = Some (records, w')
       ∧ message <$> records = ["Privacy Audit System initialized"]
       ∧ limit_str (Some 0) = "0").
Proof.
  split.
  - intros cfg rng d w.
    destruct (getAuditTrail_effect cfg rng d (Some 0) w) as (w' & extra & Hrun & _).
    by exists w'.
  - eexists _, _, _. split; [vm_compute; reflexivity|].
    split; [vm_compute; reflexivity|]. split; reflexivity.
Qed.

(** ** C4 and C10: the statistics *)

Lemma map_sum_insert_fresh (k : string) (n : nat) (m : gmap string nat) :
  m !! k = None → map_sum (<[k := n]> m) = (n + map_sum m)%nat.
Proof.
  intros Hk. unfold map_sum. rewrite map_fold_insert_L; [done | | done].
  intros. lia.
Qed.

Lemma map_sum_bump (k : string) (m : gmap string nat) :
  map_sum (bump k m) = S (map_sum m).
Proof.
  unfold bump. destruct (m !! k) as [n|] eqn:Hk.
  - replace (if (n =? 0)%nat then 0%nat else n) with n
      by (destruct (Nat.eqb_spec n 0); congruence).
    rewrite <- (insert_delete_eq m).
    rewrite map_sum_insert_fresh by apply lookup_delete_eq.
    unfold map_sum.
    rewrite (map_fold_delete_L _ _ k n m); [lia | intros; lia | done].
  - rewrite map_sum_insert_fresh by done. lia.
Qed.

Lemma bump_lookup (k j : string) (m : gmap string nat) :
  default 0%nat (bump k m !! j)
  = ((if bool_decide (k = j) then 1 else 0) + default 0%nat (m !! j))%nat.
Proof.
  unfold bump. case_bool_decide as Hkj.
  - subst j. rewrite lookup_insert_eq. simpl.
    destruct (m !! k) as [n|]; simpl; [|done].
    destruct (Nat.eqb_spec n 0); lia.
  - by rewrite lookup_insert_ne.
Qed.

Lemma tally_all (log : list AuditEntry) (st : AuditStats) :
  let st' := foldl tally st log in
  totalRecords st' = totalRecords st
  ∧ firstRecord st' = firstRecord st
  ∧ lastRecord st' = lastRecord st
  ∧ map_sum (byType st') = (map_sum (byType st) + length log)%nat
  ∧ map_sum (byStatus st') = (map_sum (byStatus st) + length log)%nat
  ∧ map_sum (byRiskLevel st') = (map_sum (byRiskLevel st) + length log)%nat.
Proof.
  revert st. induction log as [|e log IH]; intros st; simpl.
  - repeat split; lia.
  - destruct (IH (tally st e)) as (-> & -> & -> & -> & -> & ->). simpl.
    rewrite !map_sum_bump. repeat split; lia.
Qed.

Lemma tally_count (log : list AuditEntry) (st : AuditStats) (k : string) :
  let st' := foldl tally st log in
  default 0%nat (byType st' !! k)
    = (length (filter (λ e, type e = k) log) + default 0%nat (byType st !! k))%nat
  ∧ default 0%nat (byStatus st' !! k)
    = (length (filter (λ e, Status_str (status e) = k) log)
       + default 0%nat (byStatus st !! k))%nat
  ∧ default 0%nat (byRiskLevel st' !! k)
    = (length (filter (λ e, RiskLevel_str (riskLevel e) = k) log)
       + default 0%nat (byRiskLevel st !! k))%nat.
Proof.
  revert st. induction log as [|e log IH]; intros st; simpl; [done|].
  destruct (IH (tally st e)) as (-> & -> & ->). simpl.
  rewrite !bump_lookup, !filter_cons.
  repeat split; case_bool_decide; case_decide; simpl; try lia; done.
Qed.

Lemma or_null_timestamp (o : option AuditEntry) :
  (∀ e, o = Some e → timestamp e ≠ "") →
  or_null (timestamp <$> o) = timestamp <$> o.
Proof.
  intros H. destruct o as [e|]; simpl; [|done].
  case_bool_decide; [|done]. by destruct (H e eq_refl).
Qed.

(** Every counter of [getStats] is the number of entries with that key (an
    absent counter standing for no entry). *)
Lemma getStats_counts (w : World) (k : string) :
  ∃ st, getStats w = Some (st, w)
    ∧ default 0%nat (byType st !! k)
      = length (filter (λ e, type e = k) (auditLog (this w)))
    ∧ default 0%nat (byStatus st !! k)
      = length (filter (λ e, Status_str (status e) = k) (auditLog (this w)))
    ∧ default 0%nat (byRiskLevel st !! k)
      = length (filter (λ e, RiskLevel_str (riskLevel e) = k) (auditLog (this w))).
Proof.
  unfold getStats, bind, gets, ret. eexists. split; [reflexivity|].
  match goal with |- context [foldl tally ?st ?log] =>
    destruct (tally_count log st k) as (-> & -> & ->) end.
  simpl. rewrite !lookup_empty. simpl. repeat split; lia.
Qed.

Lemma bump_positive (k : string) (m : gmap string nat) :
  map_Forall (λ _ n, (0 < n)%nat) m → map_Forall (λ _ n, (0 < n)%nat) (bump k m).
Proof. intros H. unfold bump. apply map_Forall_insert_2; [lia | done]. Qed.

Lemma tally_positive (log : list AuditEntry) (st : AuditStats) :
  map_Forall (λ _ n, (0 < n)%nat) (byType st) →
  map_Forall (λ _ n, (0 < n)%nat) (byStatus st) →
  map_Forall (λ _ n, (0 < n)%nat) (byRiskLevel st) →
  let st' := foldl tally st log in
  map_Forall (λ _ n, (0 < n)%nat) (byType st')
  ∧ map_Forall (λ _ n, (0 < n)%nat) (byStatus st')
  ∧ map_Forall (λ _ n, (0 < n)%nat) (byRiskLevel st').
Proof.
  revert st. induction log as [|e log IH]; intros st Ht Hs Hr; simpl; [done|].
  apply IH; simpl; by apply bump_positive.
Qed.

Lemma counter_lookup (m : gmap string nat) (k : string) (n : nat) :
  map_Forall (λ _ n, (0 < n)%nat) m → default 0%nat (m !! k) = n → m !! k = counter n.
Proof.
  intros Hpos Hn. unfold counter. rewrite <- Hn.
  destruct (m !! k) as [c|] eqn:Hk; simpl; [|done].
  apply Hpos in Hk. destruct (Nat.eqb_spec c 0); [lia | done].
Qed.

(** C4. [getStats] on a log of well-formed entries: the total is the number
    of entries; each of the three count objects has, for every type, status
    and risk level, the number of entries with that key (and no counter for
    a key without entries), and its counters sum to the total; the first
    and the last record are the time stamps of the oldest and of the newest
    entry; on the empty log the total is 0, the count objects are empty and
    the first and last record are null. *)
Theorem getStats_consistent (w : World) :
  Forall wf_entry (auditLog (this w)) →
  ∃ st,
    getStats w = Some (st, w)
    ∧ totalRecords st = length (auditLog (this w))
    ∧ (∀ k, byType st !! k
            = counter (length (filter (λ e, type e = k) (auditLog (this w)))))
    ∧ (∀ k, byStatus st !! k
            = counter (length (filter (λ e, Status_str (status e) = k)
                                 (auditLog (this w)))))
    ∧ (∀ k, byRiskLevel st !! k
            = counter (length (filter (λ e, RiskLevel_str (riskLevel e) = k)
                                 (auditLog (this w)))))
    ∧ map_sum (byType st) = totalRecords st
    ∧ map_sum (byStatus st) = totalRecords st
    ∧ map_sum (byRiskLevel st) = totalRecords st
    ∧ firstRecord st = timestamp <$> head (auditLog (this w))
    ∧ lastRecord st = timestamp <$> last (auditLog (this w))
    ∧ (auditLog (this w) = [] →
       totalRecords st = 0%nat
       ∧ byType st = ∅ ∧ byStatus st = ∅ ∧ byRiskLevel st = ∅
       ∧ firstRecord st = None ∧ lastRecord st = None).
Proof.
  intros Hwf. unfold getStats, bind, gets, ret. eexists. split; [reflexivity|].
  assert (∀ k,
    let st := foldl tally
                {| totalRecords := length (auditLog (this w));
                   byType := ∅; byStatus := ∅; byRiskLevel := ∅;
                   firstRecord := or_null (timestamp <$> head (auditLog (this w)));
                   lastRecord := or_null (timestamp <$> last (auditLog (this w))) |}
                (auditLog (this w)) in
    byType st !! k = counter (length (filter (λ e, type e = k) (auditLog (this w))))
    ∧ byStatus st !! k
      = counter (length (filter (λ e, Status_str (status e) = k) (auditLog (this w))))
    ∧ byRiskLevel st !! k
      = counter (length (filter (λ e, RiskLevel_str (riskLevel e) = k)
                           (auditLog (this w))))) as Hkeys.
  { intros k st.
    match goal with st := foldl tally ?st0 ?log |- _ =>
      destruct (tally_count log st0 k) as (Ht & Hs & Hr);
      destruct (tally_positive log st0) as (Pt & Ps & Pr);
        [apply map_Forall_empty.. |]
    end.
    simpl in Ht, Hs, Hr. rewrite lookup_empty in Ht, Hs, Hr. simpl in Ht, Hs, Hr.
    rewrite Nat.add_0_r in Ht, Hs, Hr.
    split_and!; by apply counter_lookup. }
  match goal with |- context [foldl tally ?st ?log] =>
    destruct (tally_all log st) as (Htot & Hfirst & Hlast & Hst & Hss & Hsr) end.
  cbn zeta in Htot, Hfirst, Hlast, Hst, Hss, Hsr.
  split_and!; try (intros k; apply (Hkeys k));
    rewrite ?Htot, ?Hfirst, ?Hlast, ?Hst, ?Hss, ?Hsr;
    simpl; unfold map_sum; rewrite ?map_fold_empty; simpl; try done.
  - apply or_null_timestamp. intros e He. apply head_Some_elem_of in He.
    rewrite Forall_forall in Hwf. by apply Hwf.
  - apply or_null_timestamp. intros e He. apply last_Some_elem_of in He.
    rewrite Forall_forall in Hwf. by apply Hwf.
  - by intros ->.
Qed.

Ltac known_type :=
  unfold known_types; repeat first [apply list_elem_of_here | apply list_elem_of_further].

(** The hypothesis of C4 holds of every recorder that is used at the types
    of the interface, with a clock whose time stamps are not empty. *)
Section WellFormed.
Variable cfg : AuditConfig.
Variable rng : nat → Draw.
Hypothesis clock : ∀ n, iso (rng n) ≠ "".

Lemma effect_wf (w w' : World) es :
  effect cfg rng w w' es →
  Forall (λ e, type e ∈ known_types) es →
  Forall wf_entry (auditLog (this w)) →
  Forall wf_entry (auditLog (this w')).
Proof.
  intros [L _ _ _ _ Hmade] Hty. rewrite L. clear L.
  generalize (auditLog (this w)) as log.
  induction es as [|e es IH]; intros log Hlog; simpl; [done|].
  apply Forall_cons in Hty as [He Hes]. apply Forall_cons in Hmade as [[n Hn] Hmade].
  apply IH; [done..|]. apply retain_Forall, Forall_app. split; [done|].
  constructor; [|done]. split; [done|]. rewrite Hn. simpl. apply clock.
Qed.

Lemma follow_up_system (w w' : World) n extra :
  follow_up cfg w w' n extra → Forall (λ e, type e ∈ known_types) extra.
Proof.
  intros [[-> _]|(x & -> & Hx & _)]; [constructor|].
  constructor; [|constructor]. rewrite Hx. known_type.
Qed.

Lemma recordEvent_wf d ty msg meta (w : World) :
  ty ∈ known_types →
  Forall wf_entry (auditLog (this w)) →
  ∃ w', recordEvent cfg rng (S (S d)) ty msg meta w = Some (tt, w')
        ∧ Forall wf_entry (auditLog (this w')).
Proof.
  intros Hty Hwf.
  destruct (recordEvent_effect cfg rng d ty msg meta w) as (w' & extra & Hrun & Heff & Hfol).
  exists w'. split; [done|]. eapply effect_wf; [exact Heff| |done].
  constructor; [done|]. by eapply follow_up_system.
Qed.

Lemma getAuditTrail_wf d limit (w : World) :
  Forall wf_entry (auditLog (this w)) →
  ∃ records w', getAuditTrail cfg rng (S (S d)) limit w = Some (records, w')
        ∧ Forall wf_entry (auditLog (this w')).
Proof.
  intros Hwf.
  destruct (getAuditTrail_effect cfg rng d limit w) as (w' & extra & Hrun & Heff & Hfol).
  eexists _, w'. split; [exact Hrun|]. eapply effect_wf; [exact Heff| |done].
  constructor; [known_type|]. by eapply follow_up_system.
Qed.

Lemma constructor_wf d out t :
  ∃ w, constructor cfg rng (S (S d)) out t = Some w
       ∧ Forall wf_entry (auditLog (this w)).
Proof.
  unfold constructor.
  match goal with |- context [recordEvent _ _ _ ?a ?b ?c ?x] =>
    destruct (recordEvent_wf d a b c x) as (w & -> & Hwf)
  end; [known_type | by constructor |].
  by exists w.
Qed.

End WellFormed.

Lemma getStats_consistent_witness :
  ∃ w0 w st,
    constructor AUDIT_CONFIG rng0 2 [] 0 = Some w0
    ∧ recordEvents AUDIT_CONFIG rng0 2 demo_events w0 = Some (tt, w)
    ∧ getStats w = Some (st, w)
    ∧ totalRecords st = 9%nat
    ∧ byType st !! "inference" = Some 3%nat
    ∧ byType st !! "proof" = Some 2%nat
    ∧ byRiskLevel st !! "HIGH" = Some 2%nat
    ∧ byRiskLevel st !! "CRITICAL" = None
    ∧ map_sum (byType st) = 9%nat.
Proof.
  destruct (constructor_wf AUDIT_CONFIG rng0 ltac:(discriminate) 0%nat [] 0%nat)
    as (w0 & Hnew & Hwf0).
  assert (∃ w, recordEvents AUDIT_CONFIG rng0 2 demo_events w0 = Some (tt, w)
               ∧ Forall wf_entry (auditLog (this w))) as (w & Hrun & Hwf).
  { clear Hnew. revert w0 Hwf0. unfold demo_events.
    repeat (intros w0 Hwf0; cbn [recordEvents]; unfold bind at 1;
            match goal with |- context [recordEvent _ _ _ ?a ?b ?c w0] =>
              destruct (recordEvent_wf AUDIT_CONFIG rng0 ltac:(discriminate) 0%nat a b c w0)
                as (w1 & -> & Hwf1); [known_type | exact Hwf0 |]
            end; revert w1 Hwf1; clear w0 Hwf0).
    intros w Hwf. by exists w. }
  assert (∃ w0' w',
            constructor AUDIT_CONFIG rng0 2 [] 0 = Some w0'
            ∧ recordEvents AUDIT_CONFIG rng0 2 demo_events w0' = Some (tt, w')
            ∧ length (auditLog (this w')) = 9%nat
            ∧ length (filter (λ e, type e = "inference") (auditLog (this w'))) = 3%nat
            ∧ length (filter (λ e, type e = "proof") (auditLog (this w'))) = 2%nat
            ∧ length (filter (λ e, RiskLevel_str (riskLevel e) = "HIGH")
                        (auditLog (this w'))) = 2%nat
            ∧ length (filter (λ e, RiskLevel_str (riskLevel e) = "CRITICAL")
                        (auditLog (this w'))) = 0%nat)
    as (w0' & w' & Hnew' & Hrun' & Hlen & Hinf & Hproof & Hhigh & Hcrit).
  { eexists _, _. split; [vm_compute; reflexivity|].
    split; [vm_compute; reflexivity|]. repeat split; vm_compute; reflexivity. }
  rewrite Hnew in Hnew'. injection Hnew' as <-.
  rewrite Hrun in Hrun'. injection Hrun' as <-.
  destruct (getStats_consistent w Hwf)
    as (st & Hstats & Htotal & Htypes & _ & Hrisks & Hsum & _).
  exists w0, w, st. split; [exact Hnew|]. split; [exact Hrun|]. split; [exact Hstats|].
  rewrite Hsum, Htotal, (Htypes "inference"), (Htypes "proof"),
    (Hrisks "HIGH"), (Hrisks "CRITICAL"), Hlen, Hinf, Hproof, Hhigh, Hcrit.
  repeat split; reflexivity.
Defined.

(** C10. [getStats] leaves the world as it is (the log, its order, the
    session id and everything else), so two calls in a row return the same
    statistics. *)
Theorem getStats_readonly (w : World) :
  ∃ st,
    getStats w = Some (st, w)
    ∧ (let* a := getStats in let* b := getStats in ret (a, b)) w = Some ((st, st), w).
Proof.
  unfold getStats, bind, gets, ret. eexists. split; reflexivity.
Qed.

(** ** C5 and C6: what a call of recordEvent yields *)

Lemma randomElement_status (d : Draw) :
  randomElement d [Verified; Recorded; Pending] Verified ∈ [Verified; Recorded; Pending].
Proof.
  unfold randomElement. simpl length.
  pose proof (Nat.mod_upper_bound (pick d) 3 ltac:(lia)) as Hlt.
  destruct (pick d mod 3)%nat as [|[|[|n]]]; simpl; [set_solver.. | lia].
Qed.

(** The entry of a call stays in the log, after the survivors of the old
    log and before the notice of an export, if there is one. *)
Lemma recordEvent_appends cfg rng d ty msg meta (w : World) :
  0 < Config.maxEntries cfg →
  ∃ w' extra,
    recordEvent cfg rng (S (S d)) ty msg meta w = Some (tt, w')
    ∧ auditLog (this w')
      = newest (Z.to_nat (Config.maxEntries cfg) - S (length extra)) (auditLog (this w))
        ++ created rng w ty msg meta :: extra
    ∧ audit_lines (console w')
      = audit_lines (console w) ++ created rng w ty msg meta :: extra
    ∧ (extra = [] ∨ ∃ x, extra = [x] ∧ type x = "system").
Proof.
  intros Hpos.
  destruct (recordEvent_effect cfg rng d ty msg meta w) as (w' & extra & Hrun & Heff & Hfol).
  exists w', extra. split; [done|]. split; [|split].
  - rewrite (effect_log_cons cfg rng Hpos _ _ _ _ Heff).
    by eapply follow_up_kept.
  - by destruct Heff.
  - destruct Hfol as [[-> _]|(x & -> & Hx & _)]; eauto.
Qed.

(** C5, as the code has it.  [recordEvent] returns nothing; the entry it
    creates has the identifier and the time stamp of the draw, the session
    id of the recorder, a status among Verified, Recorded and Pending, the
    computed risk level and the arguments of the call, and when the call
    returns it is in the log, as the last entry or, when an export started,
    as the last but one. *)
Theorem recordEvent_creates_entry cfg rng d ty msg (m : option (gmap string string))
    (w : World) :
  0 < Config.maxEntries cfg →
  ∃ w' extra,
    let e := created rng w ty msg m in
    recordEvent cfg rng (S (S d)) ty msg m w = Some (tt, w')
    ∧ id e = generateId (rng (tick w)) "AUD"
    ∧ timestamp e = now (rng (tick w))
    ∧ sessionId e = this_sessionId (this w)
    ∧ status e ∈ [Verified; Recorded; Pending]
    ∧ riskLevel e = calculateRiskLevel ty m
    ∧ (type e, message e, meta e) = (ty, msg, m)
    ∧ auditLog (this w')
      = newest (Z.to_nat (Config.maxEntries cfg) - S (length extra)) (auditLog (this w))
        ++ e :: extra
    ∧ (extra = [] ∨ ∃ x, extra = [x] ∧ type x = "system").
Proof.
  intros Hpos.
  destruct (recordEvent_appends cfg rng d ty msg m w Hpos)
    as (w' & extra & Hrun & Hlog & _ & Hextra).
  exists w', extra. cbn zeta. split_and!; try done.
  apply randomElement_status.
Qed.

Lemma recordEvent_creates_entry_witness :
  ∃ w' extra,
    recordEvent AUDIT_CONFIG rng0 2 "proof" "ZK proof generated" None empty_recorder
      = Some (tt, w')
    ∧ auditLog (this w')
      = created rng0 empty_recorder "proof" "ZK proof generated" None :: extra.
Proof.
  destruct (recordEvent_creates_entry AUDIT_CONFIG rng0 0%nat "proof"
              "ZK proof generated" None empty_recorder)
    as (w' & extra & Hrun & _ & _ & _ & _ & _ & _ & Hlog & _); [reflexivity|].
  exists w', extra. split; [exact Hrun | exact Hlog].
Defined.

(** C5 as stated fails: the value that [recordEvent] returns is the same for
    two calls that create different entries. *)
Lemma recordEvent_returns_nothing :
  ∃ w1 w2,
    recordEvent AUDIT_CONFIG rng0 2 "system" "Memory optimized" None empty_recorder
      = Some (tt, w1)
    ∧ recordEvent AUDIT_CONFIG rng0 2 "proof" "ZK proof generated" None empty_recorder
      = Some (tt, w2)
    ∧ last (auditLog (this w1)) ≠ last (auditLog (this w2)).
Proof.
  eexists _, _. split; [vm_compute; reflexivity|].
  split; [vm_compute; reflexivity|]. vm_compute. discriminate.
Qed.

Lemma calculateRiskLevel_unknown ty meta :
  ty ∉ known_types → calculateRiskLevel ty meta = LOW.
Proof.
  intros Hty. unfold calculateRiskLevel.
  repeat case_bool_decide; subst; try done; exfalso; apply Hty;
    unfold known_types; set_solver.
Qed.

(** C6, as the code has it.  [recordEvent] does not validate the category:
    called with a type outside the four literals it returns normally, and
    the entry, with that type and the risk level LOW, is displayed and
    pushed like any other. *)
Theorem recordEvent_unknown_type cfg rng d ty msg meta (w : World) :
  0 < Config.maxEntries cfg →
  ty ∉ known_types →
  ∃ w' extra,
    let e := created rng w ty msg meta in
    recordEvent cfg rng (S (S d)) ty msg meta w = Some (tt, w')
    ∧ type e = ty ∧ riskLevel e = LOW
    ∧ auditLog (this w')
      = newest (Z.to_nat (Config.maxEntries cfg) - S (length extra)) (auditLog (this w))
        ++ e :: extra
    ∧ audit_lines (console w') = audit_lines (console w) ++ e :: extra.
Proof.
  intros Hpos Hty.
  destruct (recordEvent_appends cfg rng d ty msg meta w Hpos)
    as (w' & extra & Hrun & Hlog & Hout & _).
  exists w', extra. cbn zeta. split_and!; try done.
  by apply calculateRiskLevel_unknown.
Qed.

Lemma recordEvent_unknown_type_witness :
  ∃ w' extra,
    recordEvent AUDIT_CONFIG rng0 2 "telemetry" "ping" None empty_recorder = Some (tt, w')
    ∧ auditLog (this w') = created rng0 empty_recorder "telemetry" "ping" None :: extra
    ∧ riskLevel (created rng0 empty_recorder "telemetry" "ping" None) = LOW.
Proof.
  destruct (recordEvent_unknown_type AUDIT_CONFIG rng0 0%nat "telemetry" "ping" None
              empty_recorder)
    as (w' & extra & Hrun & _ & Hrisk & Hlog & _);
    [reflexivity | by apply (bool_decide_unpack _) |].
  exists w', extra. split; [exact Hrun|]. split; [exact Hlog | exact Hrisk].
Defined.

(** C6 as stated fails: on a new recorder a call with the type "telemetry"
    is not rejected; the log grows from one entry to two, the new one with
    the risk level LOW. *)
Lemma recordEvent_unknown_type_recorded :
  ∃ w w',
    constructor AUDIT_CONFIG rng0 2 [] 0 = Some w
    ∧ ("telemetry" ∉ known_types)
    ∧ recordEvent AUDIT_CONFIG rng0 2 "telemetry" "ping" None w = Some (tt, w')
    ∧ length (auditLog (this w)) = 1%nat
    ∧ (λ e, (type e, riskLevel e)) <$> auditLog (this w')
      = [("system", LOW); ("telemetry", LOW)].
Proof.
  eexists _, _. split; [vm_compute; reflexivity|].
  split; [by apply (bool_decide_unpack _)|].
  split; [vm_compute; reflexivity|]. split; reflexivity.
Qed.

(** ** C8: the session id *)

Lemma trail_Forall (P : AuditEntry → Prop) limit log :
  Forall P log → Forall P (trail limit log).
Proof.
  intros H. destruct limit as [k|]; simpl; [|done].
  destruct (k =? 0); [done|]. by apply Forall_drop.
Qed.

(** C8. The constructor draws the session id and leaves a log whose entries
    all carry it; [recordEvent], [getAuditTrail], [getStats] and the end of
    an export keep the session id of the recorder and keep every entry of
    the log on it; the entries that [getAuditTrail] returns carry it too. *)
Theorem sessionId_invariant :
  (∀ cfg rng d out t,
     ∃ w, constructor cfg rng (S (S d)) out t = Some w
          ∧ this_sessionId (this w) = generateSessionId (rng t)
          ∧ session_inv w)
  ∧ (∀ cfg rng d ty msg meta w,
       session_inv w →
       ∃ w', recordEvent cfg rng (S (S d)) ty msg meta w = Some (tt, w')
             ∧ this_sessionId (this w') = this_sessionId (this w)
             ∧ session_inv w')
  ∧ (∀ cfg rng d limit w,
       session_inv w →
       ∃ records w',
         getAuditTrail cfg rng (S (S d)) limit w = Some (records, w')
         ∧ Forall (λ e, sessionId e = this_sessionId (this w)) records
         ∧ this_sessionId (this w') = this_sessionId (this w)
         ∧ session_inv w')
  ∧ (∀ w, session_inv w → ∃ st, getStats w = Some (st, w))
  ∧ (∀ cfg rng d job fs_error w,
       session_inv w →
       ∃ w', exportAuditLog_resume cfg rng (S (S d)) job fs_error w = Some (tt, w')
             ∧ this_sessionId (this w') = this_sessionId (this w)
             ∧ session_inv w').
Proof.
  split_and!.
  - intros cfg rng d out t.
    destruct (constructor_effect cfg rng d out t) as (w & extra & Hrun & Heff & _).
    exists w. split; [done|]. split; [by destruct Heff|].
    eapply effect_session; [exact Heff|]. by constructor.
  - intros cfg rng d ty msg meta w Hinv.
    destruct (recordEvent_effect cfg rng d ty msg meta w) as (w' & extra & Hrun & Heff & _).
    exists w'. split; [done|]. split; [by destruct Heff|]. by eapply effect_session.
  - intros cfg rng d limit w Hinv.
    destruct (getAuditTrail_effect cfg rng d limit w) as (w' & extra & Hrun & Heff & _).
    eexists _, w'. split; [exact Hrun|]. split; [by apply trail_Forall|].
    split; [by destruct Heff|]. by eapply effect_session.
  - intros w _. unfold getStats, bind, gets, ret. by eexists.
  - intros cfg rng d job fs_error w Hinv.
    destruct (exportAuditLog_resume_effect cfg rng d job fs_error w)
      as (w' & es & Hrun & Heff & _).
    exists w'. split; [done|]. split; [by destruct Heff|]. by eapply effect_session.
Qed.

Lemma sessionId_invariant_witness :
  ∃ w w',
    constructor AUDIT_CONFIG rng0 2 [] 0 = Some w
    ∧ recordEvent AUDIT_CONFIG rng0 2 "verification" "Signature verified" None w
      = Some (tt, w')
    ∧ session_inv w'.
Proof.
  destruct (proj1 sessionId_invariant AUDIT_CONFIG rng0 0%nat [] 0%nat)
    as (w & Hnew & _ & Hinv).
  destruct (proj1 (proj2 sessionId_invariant) AUDIT_CONFIG rng0 0%nat
              "verification" "Signature verified" None w Hinv)
    as (w' & Hrun & _ & Hinv').
  exists w, w'. split; [exact Hnew|]. split; [exact Hrun | exact Hinv'].
Defined.

(** ** C9: the telemetry of getAuditTrail *)

(** C9, as the code has it.  [getAuditTrail] computes its result from the log
    as it is (a suffix of it, whose length goes into the message of the
    telemetry entry) and then records a system entry; that call of
    [recordEvent] pushes the telemetry entry and, exactly when the log is
    then due for an export and none is in progress, the notice of the
    export after it, and sets [isExporting].  The log grows by these one or
    two entries, within the maximum. *)
Theorem getAuditTrail_then_telemetry cfg rng d limit (w : World) :
  0 < Config.maxEntries cfg →
  Z.of_nat (length (auditLog (this w))) ≤ Config.maxEntries cfg →
  ∃ w' extra,
    let cap := Z.to_nat (Config.maxEntries cfg) in
    let records := trail limit (auditLog (this w)) in
    let telemetry :=
      created rng (advance w) "system"
        ("Audit trail queried - " +:+ pretty (length records) +:+ " records retrieved")
        (Some {[ "limit" := limit_str limit;
                 "queryTime" := fixed2 (rng (tick w)) +:+ "ms" ]}) in
    let starts :=
      export_due cfg (cap `min` (length (auditLog (this w)) + 1))%nat
      && negb (isExporting (this w)) in
    getAuditTrail cfg rng (S (S d)) limit w = Some (records, w')
    ∧ records `suffix_of` auditLog (this w)
    ∧ audit_lines (console w') = audit_lines (console w) ++ telemetry :: extra
    ∧ length extra = (if starts then 1 else 0)%nat
    ∧ Forall (λ x, type x = "system"
                   ∧ message x = "Starting audit log export: "
                                 +:+ generateId (rng (S (S (S (tick w))))) "EXP") extra
    ∧ auditLog (this w') = newest cap (auditLog (this w) ++ telemetry :: extra)
    ∧ length (auditLog (this w'))
      = (cap `min` (length (auditLog (this w)) + 1 + length extra))%nat
    ∧ isExporting (this w') = (isExporting (this w) || starts).
Proof.
  intros Hpos Hlen.
  destruct (getAuditTrail_exact cfg rng d limit w Hpos)
    as (w' & extra & Hrun & Heff & Hextra & Hnote & Hflag).
  exists w', extra. cbn zeta in *.
  pose proof (effect_log_cons cfg rng Hpos _ _ _ _ Heff) as Hlog.
  split; [done|]. split.
  { destruct limit as [k|]; simpl; [|done].
    destruct (k =? 0); [done | apply suffix_drop]. }
  split; [by destruct Heff|]. split; [done|]. split; [done|]. split; [done|].
  split; [|done]. rewrite Hlog, newest_length, length_app. simpl. lia.
Qed.

(** A query on the recorder of the demonstration after its first eight
    events: the log has nine entries, the telemetry entry is the tenth, the
    export starts and its notice is the eleventh. *)
Lemma getAuditTrail_then_telemetry_witness :
  ∃ w0 w8 w' records (extra : list AuditEntry),
    constructor AUDIT_CONFIG rng0 2 [] 0 = Some w0
    ∧ recordEvents AUDIT_CONFIG rng0 2 demo_events w0 = Some (tt, w8)
    ∧ getAuditTrail AUDIT_CONFIG rng0 2 (Some 2) w8 = Some (records, w')
    ∧ length records = 2%nat
    ∧ length extra = 1%nat
    ∧ length (auditLog (this w')) = 11%nat
    ∧ isExporting (this w') = true.
Proof.
  assert (∃ w0 w8,
            constructor AUDIT_CONFIG rng0 2 [] 0 = Some w0
            ∧ recordEvents AUDIT_CONFIG rng0 2 demo_events w0 = Some (tt, w8)
            ∧ length (auditLog (this w8)) = 9%nat
            ∧ isExporting (this w8) = false)
    as (w0 & w8 & Hnew & Hrun & Hlen & Hidle).
  { eexists _, _. split; [vm_compute; reflexivity|].
    split; [vm_compute; reflexivity|]. split; reflexivity. }
  destruct (getAuditTrail_then_telemetry AUDIT_CONFIG rng0 0%nat (Some 2) w8)
    as (w' & extra & Hrun' & _ & _ & Hextra & _ & _ & Hlen' & Hflag);
    [reflexivity | rewrite Hlen; simpl; lia |].
  cbn zeta in *. rewrite Hlen, Hidle in Hextra, Hflag.
  change (length extra = 1%nat) in Hextra.
  change (isExporting (this w') = true) in Hflag.
  exists w0, w8, w', (trail (Some 2) (auditLog (this w8))), extra.
  split; [exact Hnew|]. split; [exact Hrun|]. split; [exact Hrun'|].
  split; [|split; [exact Hextra|split; [|exact Hflag]]].
  - transitivity (length (newest 2 (auditLog (this w8)))).
    + f_equal. exact (slice_neg 2 (auditLog (this w8)) eq_refl).
    + rewrite newest_length, Hlen. reflexivity.
  - rewrite Hlen', Hlen, Hextra.
    change (Config.maxEntries AUDIT_CONFIG) with 10000. lia.
Defined.

(** C9 as stated fails: on a recorder with nine entries a call of
    [getAuditTrail] leaves eleven, the telemetry entry and the notice of
    the export that it started. *)
Lemma getAuditTrail_adds_two :
  ∃ w0 w records w',
    constructor AUDIT_CONFIG rng0 2 [] 0 = Some w0
    ∧ recordEvents AUDIT_CONFIG rng0 2
        (replicate 8 ("inference", "Model inference started", None)) w0 = Some (tt, w)
    ∧ length (auditLog (this w)) = 9%nat
    ∧ getAuditTrail AUDIT_CONFIG rng0 2 None w = Some (records, w')
    ∧ length (auditLog (this w')) = 11%nat
    ∧ message <$> drop 9 (auditLog (this w'))
      = ["Audit trail queried - 9 records retrieved";
         "Starting audit log export: EXP-13-K3X9"].
Proof.
  eexists _, _, _, _. split; [vm_compute; reflexivity|].
  split; [vm_compute; reflexivity|]. split; [reflexivity|].
  split; [vm_compute; reflexivity|]. split; reflexivity.
Qed.

(** ** C7: the example with four events *)

(** With the configuration of the source, a call on a log of fewer than
    nine entries pushes its entry and nothing else happens. *)
Lemma recordEvent_short rng d ty msg meta (w : World) :
  (length (auditLog (this w)) < 9)%nat →
  ∃ w', recordEvent AUDIT_CONFIG rng (S d) ty msg meta w = Some (tt, w')
        ∧ auditLog (this w') = auditLog (this w) ++ [created rng w ty msg meta]
        ∧ audit_lines (console w')
          = audit_lines (console w) ++ [created rng w ty msg meta].
Proof.
  intros Hlen. set (e := created rng w ty msg meta).
  assert (retain AUDIT_CONFIG (auditLog (this w) ++ [e]) = auditLog (this w) ++ [e]) as Hkeep.
  { unfold retain.
    destruct (Z.gtb_spec (Z.of_nat (length (auditLog (this w) ++ [e])))
                (Config.maxEntries AUDIT_CONFIG)) as [Hgt|]; [|done].
    rewrite length_app in Hgt. simpl in Hgt. lia. }
  exists (pushed AUDIT_CONFIG e w). split; [|split].
  - apply recordEvent_quiet. fold e. rewrite Hkeep, length_app. simpl length.
    unfold export_due. simpl Config.autoExport. rewrite andb_true_l.
    apply Z.eqb_neq. rewrite Z.rem_mod_nonneg by lia.
    rewrite Z.mod_small by lia. lia.
  - exact Hkeep.
  - simpl. by rewrite audit_lines_app.
Qed.

Lemma calculateRiskLevel_high (m : gmap string string) :
  (m !! "complexity" = Some "high" → calculateRiskLevel "proof" (Some m) = HIGH)
  ∧ (m !! "sensitivity" = Some "high" → calculateRiskLevel "inference" (Some m) = HIGH).
Proof.
  split; intros H; unfold calculateRiskLevel, meta_is; simpl; rewrite H;
    by repeat case_bool_decide.
Qed.

(** C7, as the code has it.  On a new recorder the log already holds the
    bootstrap entry of the constructor, a system entry of level LOW.
    Recording a system event, a proof event of high complexity, an
    inference event of high sensitivity and a verification event creates
    four entries of levels LOW, HIGH, HIGH and MEDIUM, in that order, after
    it; [getStats] then counts LOW twice, HIGH twice and MEDIUM once. *)
Theorem four_events_risk_levels rng d out t m1 m2 m3 m4 meta1 meta4
    (mp mi : gmap string string) :
  mp !! "complexity" = Some "high" →
  mi !! "sensitivity" = Some "high" →
  ∃ w0 w4 st,
    constructor AUDIT_CONFIG rng (S (S d)) out t = Some w0
    ∧ recordEvents AUDIT_CONFIG rng (S (S d))
        [("system", m1, meta1); ("proof", m2, Some mp);
         ("inference", m3, Some mi); ("verification", m4, meta4)] w0 = Some (tt, w4)
    ∧ (λ e, (type e, riskLevel e)) <$> auditLog (this w4)
      = [("system", LOW); ("system", LOW); ("proof", HIGH);
         ("inference", HIGH); ("verification", MEDIUM)]
    ∧ riskLevel <$> drop (length (audit_lines (console w0))) (audit_lines (console w4))
      = [LOW; HIGH; HIGH; MEDIUM]
    ∧ getStats w4 = Some (st, w4)
    ∧ byRiskLevel st = {[ "LOW" := 2%nat; "HIGH" := 2%nat; "MEDIUM" := 1%nat ]}.
Proof.
  intros Hp Hi.
  apply (proj1 (calculateRiskLevel_high mp)) in Hp.
  apply (proj2 (calculateRiskLevel_high mi)) in Hi.
  unfold constructor.
  match goal with |- context [recordEvent _ _ _ ?a ?b ?c ?x] =>
    destruct (recordEvent_short rng (S d) a b c x) as (w0 & -> & L0 & O0); [simpl; lia|]
  end.
  simpl in L0.
  destruct (recordEvent_short rng (S d) "system" m1 meta1 w0) as (w1 & R1 & L1 & O1);
    [rewrite L0; simpl; lia|].
  destruct (recordEvent_short rng (S d) "proof" m2 (Some mp) w1) as (w2 & R2 & L2 & O2);
    [rewrite L1, L0; simpl; lia|].
  destruct (recordEvent_short rng (S d) "inference" m3 (Some mi) w2) as (w3 & R3 & L3 & O3);
    [rewrite L2, L1, L0; simpl; lia|].
  destruct (recordEvent_short rng (S d) "verification" m4 meta4 w3) as (w4 & R4 & L4 & O4);
    [rewrite L3, L2, L1, L0; simpl; lia|].
  rewrite L3, L2, L1, L0 in L4. simpl in L4.
  rewrite O3, O2, O1, <- !app_assoc in O4. simpl in O4.
  eexists w0, w4, _. split_and!.
  - reflexivity.
  - cbn [recordEvents]. unfold bind. rewrite R1, R2, R3, R4. reflexivity.
  - rewrite L4. unfold created. simpl. by rewrite Hp, Hi.
  - rewrite O4, drop_app_length. unfold created. simpl. by rewrite Hp, Hi.
  - unfold getStats, bind, gets, ret. reflexivity.
  - rewrite L4. unfold created. simpl. rewrite Hp, Hi. by vm_compute.
Qed.

Lemma four_events_risk_levels_witness :
  ∃ w0 w4 st,
    constructor AUDIT_CONFIG rng0 2 [] 0 = Some w0
    ∧ recordEvents AUDIT_CONFIG rng0 2
        [("system", "Health check completed", None);
         ("proof", "ZK proof generated", Some {[ "complexity" := "high" ]});
         ("inference", "Model inference started", Some {[ "sensitivity" := "high" ]});
         ("verification", "Signature verified", None)] w0 = Some (tt, w4)
    ∧ getStats w4 = Some (st, w4)
    ∧ byRiskLevel st = {[ "LOW" := 2%nat; "HIGH" := 2%nat; "MEDIUM" := 1%nat ]}.
Proof.
  destruct (four_events_risk_levels rng0 0%nat [] 0%nat
              "Health check completed" "ZK proof generated"
              "Model inference started" "Signature verified" None None
              {[ "complexity" := "high" ]} {[ "sensitivity" := "high" ]})
    as (w0 & w4 & st & Hnew & Hrun & _ & _ & Hstats & Hrisk);
    [reflexivity | reflexivity |].
  exists w0, w4, st. split_and!; assumption.
Defined.

(** C7 as stated fails on the count of LOW: after the four events of the
    example [getStats] counts two entries of level LOW, the bootstrap entry
    and the system event, not one. *)
Lemma four_events_low_twice :
  ∃ w0 w4 st,
    constructor AUDIT_CONFIG rng0 2 [] 0 = Some w0
    ∧ recordEvents AUDIT_CONFIG rng0 2
        [("system", "Health check completed", None);
         ("proof", "ZK proof generated", Some {[ "complexity" := "high" ]});
         ("inference", "Model inference started", Some {[ "sensitivity" := "high" ]});
         ("verification", "Signature verified", None)] w0 = Some (tt, w4)
    ∧ getStats w4 = Some (st, w4)
    ∧ riskLevel <$> auditLog (this w4) = [LOW; LOW; HIGH; HIGH; MEDIUM]
    ∧ byRiskLevel st !! "LOW" = Some 2%nat
    ∧ byRiskLevel st ≠ {[ "LOW" := 1%nat; "HIGH" := 2%nat; "MEDIUM" := 1%nat ]}.
Proof.
  eexists _, _, _. split; [vm_compute; reflexivity|].
  split; [vm_compute; reflexivity|].
  split; [unfold getStats, bind, gets, ret; reflexivity|].
  split; [vm_compute; reflexivity|]. split; [by vm_compute|].
  intros Heq. apply (f_equal (λ m : gmap string nat, m !! "LOW")) in Heq.
  vm_compute in Heq. discriminate.
Qed.

(** * More properties of the recorder *)

(** ** The start of an export *)

(** X1. [recordEvent] starts an export exactly when, after its push, the
    auto-export is on, the length of the log is a multiple of ten and no
    export is in progress: then it sets [isExporting] and pushes the notice
    "Starting audit log export: <id>" after its own entry, so that the log
    is the newest [maxEntries] of the old log, the entry and the notice;
    otherwise it pushes its own entry only and leaves [isExporting] as it
    is.  What is pushed is what is displayed. *)
Theorem recordEvent_export_trigger cfg rng d ty msg meta (w : World) :
  0 < Config.maxEntries cfg →
  ∃ w' extra,
    let n := (Z.to_nat (Config.maxEntries cfg) `min` (length (auditLog (this w)) + 1))%nat in
    let starts := export_due cfg n && negb (isExporting (this w)) in
    recordEvent cfg rng (S (S d)) ty msg meta w = Some (tt, w')
    ∧ audit_lines (console w')
      = audit_lines (console w) ++ created rng w ty msg meta :: extra
    ∧ auditLog (this w')
      = newest (Z.to_nat (Config.maxEntries cfg))
          (auditLog (this w) ++ created rng w ty msg meta :: extra)
    ∧ length extra = (if starts then 1 else 0)%nat
    ∧ Forall (λ x, type x = "system"
                   ∧ message x = "Starting audit log export: "
                                 +:+ generateId (rng (S (S (tick w)))) "EXP") extra
    ∧ isExporting (this w') = (isExporting (this w) || starts).
Proof.
  intros Hpos.
  destruct (recordEvent_exact cfg rng d ty msg meta w Hpos)
    as (w' & extra & Hrun & Heff & Hextra & Hnote & Hflag).
  exists w', extra. cbn zeta in *.
  split; [done|]. split; [by destruct Heff|].
  split; [by apply (effect_log_cons cfg rng Hpos _ _ _ _ Heff) | done].
Qed.

(** The ninth call on a new recorder of the source starts the first export:
    the log holds the nine entries before, the entry of the call and the
    notice. *)
Lemma recordEvent_export_trigger_witness :
  ∃ w0 w8 w9 (extra : list AuditEntry),
    constructor AUDIT_CONFIG rng0 2 [] 0 = Some w0
    ∧ recordEvents AUDIT_CONFIG rng0 2 demo_events w0 = Some (tt, w8)
    ∧ recordEvent AUDIT_CONFIG rng0 2 "proof" "ZK proof generated" None w8
      = Some (tt, w9)
    ∧ length extra = 1%nat
    ∧ auditLog (this w9)
      = auditLog (this w8)
        ++ created rng0 w8 "proof" "ZK proof generated" None :: extra
    ∧ isExporting (this w9) = true.
Proof.
  assert (∃ w0 w8,
            constructor AUDIT_CONFIG rng0 2 [] 0 = Some w0
            ∧ recordEvents AUDIT_CONFIG rng0 2 demo_events w0 = Some (tt, w8)
            ∧ length (auditLog (this w8)) = 9%nat
            ∧ isExporting (this w8) = false)
    as (w0 & w8 & Hnew & Hrun & Hlen & Hidle).
  { eexists _, _. split; [vm_compute; reflexivity|].
    split; [vm_compute; reflexivity|]. split; reflexivity. }
  destruct (recordEvent_export_trigger AUDIT_CONFIG rng0 0%nat "proof"
              "ZK proof generated" None w8)
    as (w9 & extra & Hrun9 & _ & Hlog & Hextra & _ & Hflag); [reflexivity|].
  cbn zeta in *. rewrite Hlen, Hidle in Hextra, Hflag.
  change (length extra = 1%nat) in Hextra.
  change (isExporting (this w9) = true) in Hflag.
  exists w0, w8, w9, extra. split; [exact Hnew|]. split; [exact Hrun|].
  split; [exact Hrun9|]. split; [exact Hextra|]. split; [|exact Hflag].
  rewrite Hlog. apply newest_all. rewrite length_app. simpl. rewrite Hlen, Hextra.
  change (Config.maxEntries AUDIT_CONFIG) with 10000. lia.
Defined.

(** X2. With the auto-export off, or while an export is in progress, a
    sequence of calls pushes exactly one entry per call, in the order of the
    calls, and never touches [isExporting]: the log is then the [maxEntries]
    newest of the old log followed by the entries of the calls. *)
Theorem recordEvents_one_entry_each cfg rng d events (w : World) :
  0 < Config.maxEntries cfg →
  Z.of_nat (length (auditLog (this w))) ≤ Config.maxEntries cfg →
  Config.autoExport cfg = false ∨ isExporting (this w) = true →
  ∃ w' pushed,
    recordEvents cfg rng (S d) events w = Some (tt, w')
    ∧ audit_lines (console w') = audit_lines (console w) ++ pushed
    ∧ (λ e, (type e, message e, meta e)) <$> pushed = events
    ∧ auditLog (this w')
      = newest (Z.to_nat (Config.maxEntries cfg)) (auditLog (this w) ++ pushed)
    ∧ isExporting (this w') = isExporting (this w).
Proof.
  intros Hpos Hlen Hw.
  destruct (recordEvents_single cfg rng d events w Hw) as (w' & pushed & Hrun & Heff & Hk & Hb).
  exists w', pushed. split_and!; try done.
  - by destruct Heff.
  - by eapply effect_log.
Qed.

Lemma recordEvents_one_entry_each_witness :
  ∃ w' pushed,
    recordEvents CONFIG_3 rng0 1
      [("system", "A", None); ("proof", "B", None)]
      (set_isExporting true empty_recorder) = Some (tt, w')
    ∧ message <$> pushed = ["A"; "B"]
    ∧ auditLog (this w') = pushed.
Proof.
  destruct (recordEvents_one_entry_each CONFIG_3 rng0 0%nat
              [("system", "A", None); ("proof", "B", None)]
              (set_isExporting true empty_recorder))
    as (w' & pushed & Hrun & _ & Hkeys & Hlog & _);
    [reflexivity | simpl; lia | by right |].
  exists w', pushed. split; [exact Hrun|].
  assert (length pushed = 2%nat) as Hlen
    by (by rewrite <- (length_fmap (λ e, (type e, message e, meta e))), Hkeys).
  split.
  - apply (f_equal (fmap (λ k : string * string * option (gmap string string), k.1.2))) in Hkeys.
    rewrite <- list_fmap_compose in Hkeys. exact Hkeys.
  - rewrite Hlog. simpl. apply newest_all. simpl. lia.
Defined.

(** ** The export, its flag and its two records *)

(** X3. [exportAuditLog] is exclusive.  While an export is in progress a
    call records nothing, returns at once and leaves the flag set; otherwise
    it sets the flag, records one system entry, "Starting audit log export:
    <id>" with the number of entries before it, and suspends with that id
    and the path it was given. *)
Theorem exportAuditLog_exclusive cfg rng d path (w : World) :
  ∃ job w' es,
    exportAuditLog cfg rng (S d) path w = Some (job, w')
    ∧ effect cfg rng w w' es
    ∧ isExporting (this w') = true
    ∧ if isExporting (this w) then job = None ∧ es = []
      else ∃ x, es = [x]
             ∧ job = Some {| job_exportId := generateId (rng (tick w)) "EXP";
                             job_filePath := path |}
             ∧ type x = "system"
             ∧ message x = "Starting audit log export: " +:+ generateId (rng (tick w)) "EXP"
             ∧ meta x = Some {[ "records" := pretty (length (auditLog (this w)));
                                "format" := "JSON" ]}.
Proof.
  destruct (isExporting (this w)) eqn:Hbusy.
  - eexists None, _, []. split; [|split; [|split]].
    + unfold exportAuditLog, exportAuditLog_begin. run_monad. by rewrite Hbusy.
    + effect_tac.
    + done.
    + done.
  - set (w1 := advance (set_isExporting true w)).
    destruct (recordEvent_locked cfg rng d "system"
                ("Starting audit log export: " +:+ generateId (rng (tick w)) "EXP")
                (Some {[ "records" := pretty (length (auditLog (this w)));
                         "format" := "JSON" ]}) w1)
      as (w' & Hrun & Heff & Hb); [done|].
    eexists _, w', [_]. split_and!.
    + unfold exportAuditLog, exportAuditLog_begin. run_monad. rewrite Hbusy.
      cbn -[recordEvent].
      match goal with
      | |- context [recordEvent cfg rng (S d) ?a ?b ?c ?y] =>
          change (recordEvent cfg rng (S d) a b c y)
            with (recordEvent cfg rng (S d) "system"
                    ("Starting audit log export: " +:+ generateId (rng (tick w)) "EXP")
                    (Some {[ "records" := pretty (length (auditLog (this w)));
                             "format" := "JSON" ]}) w1)
      end.
      rewrite Hrun. reflexivity.
    + apply (effect_trans cfg rng w w1 w' [] _); [by apply effect_none | exact Heff].
    + done.
    + eexists. split_and!; reflexivity.
Qed.

Section Completion.
Variable cfg : AuditConfig.
Variable rng : nat → Draw.

(** The end of an export that is in progress: one record, and the flag is
    cleared, whether the file was written or not. *)
Lemma exportAuditLog_resume_locked d job fs_error (w : World) :
  isExporting (this w) = true →
  ∃ w' y,
    exportAuditLog_resume cfg rng (S d) job fs_error w = Some (tt, w')
    ∧ effect cfg rng w w' [y]
    ∧ type y = "system"
    ∧ message y = match fs_error with
                  | None => "Audit log exported successfully"
                  | Some _ => "Audit log export failed"
                  end
    ∧ meta y ≫= (λ m, m !! "exportId") = Some (job_exportId job)
    ∧ meta y ≫= (λ m, m !! "error") = fs_error
    ∧ isExporting (this w') = false.
Proof.
  intros Hbusy. unfold exportAuditLog_resume.
  destruct fs_error as [err|]; run_monad.
  - match goal with
    | |- context [recordEvent cfg rng _ ?a ?b ?c ?x] =>
        destruct (recordEvent_locked cfg rng d a b c x) as (w1 & Hrun & Heff & _); [done|]
    end.
    unfold bind. rewrite Hrun. eexists _, _. split; [reflexivity|]. split.
    { eapply (effect_trans cfg rng w (advance w) _ []); [by apply effect_none|].
      eapply (effect_trans cfg rng _ _ _ [_] []); [exact Heff|]. effect_tac. }
    split_and!; try reflexivity; simpl; by simplify_map_eq.
  - match goal with
    | |- context [recordEvent cfg rng _ ?a ?b ?c ?x] =>
        destruct (recordEvent_locked cfg rng d a b c x) as (w1 & Hrun & Heff & _); [done|]
    end.
    unfold bind. rewrite Hrun. eexists _, _. split; [reflexivity|]. split.
    { eapply (effect_trans cfg rng w (advance w) _ []); [by apply effect_none|].
      eapply (effect_trans cfg rng _ _ _ [_] []); [exact Heff|]. effect_tac. }
    split_and!; try reflexivity; simpl; by simplify_map_eq.
Qed.

End Completion.

(** X4. A whole export, from an idle recorder: the start and the end leave
    exactly two system entries in the trace, the notice of the start and
    the record of the outcome, "Audit log exported successfully" or, when the
    file system throws, "Audit log export failed" with the message of the
    error; the flag is set in between and cleared at the end, in both
    cases. *)
Theorem export_cycle cfg rng d path fs_error (w : World) :
  isExporting (this w) = false →
  ∃ job w1 w2 x y,
    exportAuditLog cfg rng (S d) path w = Some (Some job, w1)
    ∧ isExporting (this w1) = true
    ∧ exportAuditLog_resume cfg rng (S d) job fs_error w1 = Some (tt, w2)
    ∧ isExporting (this w2) = false
    ∧ effect cfg rng w w2 [x; y]
    ∧ type x = "system" ∧ type y = "system"
    ∧ message x = "Starting audit log export: " +:+ job_exportId job
    ∧ message y = match fs_error with
                  | None => "Audit log exported successfully"
                  | Some _ => "Audit log export failed"
                  end
    ∧ meta y ≫= (λ m, m !! "exportId") = Some (job_exportId job)
    ∧ meta y ≫= (λ m, m !! "error") = fs_error.
Proof.
  intros Hidle.
  destruct (exportAuditLog_exclusive cfg rng d path w) as (job & w1 & es & Hrun & Heff & Hb & Hes).
  rewrite Hidle in Hes. destruct Hes as (x & -> & -> & Hx & Hmx & _).
  destruct (exportAuditLog_resume_locked cfg rng d
              {| job_exportId := generateId (rng (tick w)) "EXP"; job_filePath := path |}
              fs_error w1 Hb)
    as (w2 & y & Hrun2 & Heff2 & Hy & Hmy & Hid & Herr & Hb2).
  eexists _, w1, w2, x, y. split_and!; try done.
  by apply (effect_trans cfg rng w w1 w2 [x] [y]).
Qed.

Lemma export_cycle_witness :
  ∃ job w1 w2,
    exportAuditLog AUDIT_CONFIG rng0 1 None empty_recorder = Some (Some job, w1)
    ∧ exportAuditLog_resume AUDIT_CONFIG rng0 1 job (Some "EACCES") w1 = Some (tt, w2)
    ∧ isExporting (this w2) = false.
Proof.
  destruct (export_cycle AUDIT_CONFIG rng0 0%nat None (Some "EACCES") empty_recorder)
    as (job & w1 & w2 & x & y & Hrun & _ & Hrun2 & Hflag & _); [reflexivity|].
  exists job, w1, w2. split; [exact Hrun|]. split; [exact Hrun2 | exact Hflag].
Defined.

(** ** More on reading the log back *)

(** X5. A negative limit does not select the newest entries: [slice] then
    gets a positive start, and [getAuditTrail(k)] with [k < 0] returns the
    log without its [|k|] oldest entries (nothing when the log has no more
    than that). *)
Theorem getAuditTrail_negative_limit cfg rng d k (w : World) :
  k < 0 →
  ∃ w', getAuditTrail cfg rng (S (S d)) (Some k) w
        = Some (drop (Z.to_nat (- k)) (auditLog (this w)), w').
Proof.
  intros Hk.
  destruct (getAuditTrail_effect cfg rng d (Some k) w) as (w' & extra & Hrun & _).
  exists w'. rewrite Hrun. do 2 f_equal. unfold trail, slice.
  destruct (Z.eqb_spec k 0); [lia|].
  destruct (Z.ltb_spec (- k) 0); [lia|].
  destruct (Z.min_spec (- k) (Z.of_nat (length (auditLog (this w))))) as [[_ ->]|[Hle ->]];
    [done|].
  rewrite Nat2Z.id, drop_all. symmetry. apply drop_ge. lia.
Qed.

Lemma getAuditTrail_negative_limit_witness :
  ∃ w w' records,
    recordEvents CONFIG_3 rng0 2
      [("system", "A", None); ("proof", "B", None); ("inference", "C", None)]
      empty_recorder = Some (tt, w)
    ∧ getAuditTrail CONFIG_3 rng0 2 (Some (-1)) w = Some (records, w')
    ∧ message <$> records = ["B"; "C"].
Proof.
  destruct (recordEvents CONFIG_3 rng0 2
              [("system", "A", None); ("proof", "B", None); ("inference", "C", None)]
              empty_recorder) as [[[] w]|] eqn:Hw; [|by vm_compute in Hw].
  destruct (getAuditTrail_negative_limit CONFIG_3 rng0 0%nat (-1) w) as (w' & Hrun); [lia|].
  exists w, w', (drop (Z.to_nat (- -1)) (auditLog (this w))).
  split; [done|]. split; [exact Hrun|].
  vm_compute in Hw. injection Hw as <-. reflexivity.
Defined.

(** The text of a limit: the decimal expansion of an integer below [2 ^ 53],
    and what [toString] makes of the doubles above. *)
Lemma Number_toString_small (k : Z) :
  0 ≤ k < 2 ^ 53 → Number_toString k = pretty k.
Proof.
  intros [Hk0 Hk]. unfold Number_toString, round_to_double.
  destruct (Z.ltb_spec k 0); [lia|].
  destruct (Z.ltb_spec k (2 ^ 53)); [|lia].
  destruct (Z.ltb_spec k (2 ^ 53)); [done | lia].
Qed.

Lemma Number_toString_examples :
  Number_toString 0 = "0"
  ∧ Number_toString 10000 = "10000"
  ∧ Number_toString (-3) = "-3"
  ∧ Number_toString (2 ^ 53 + 1) = "9007199254740992"
  ∧ Number_toString 123456789012345678901 = "123456789012345680000"
  ∧ Number_toString (10 ^ 21 - 1) = "1e+21"
  ∧ Number_toString (10 ^ 21) = "1e+21"
  ∧ Number_toString (2 ^ 70) = "1.1805916207174113e+21"
  ∧ Number_toString (- 10 ^ 23) = "-1e+23"
  ∧ Number_toString (2 ^ 1024) = "Infinity".
Proof. repeat split; vm_compute; reflexivity. Qed.

Lemma limit_str_cases :
  limit_str None = "none"
  ∧ limit_str (Some 0) = "0"
  ∧ limit_str (Some 5) = "5"
  ∧ limit_str (Some (10 ^ 21)) = "1e+21".
Proof. repeat split; vm_compute; reflexivity. Qed.

(** X6. The recorder records its own queries: of two calls of
    [getAuditTrail] in a row, the second (without a limit) returns the
    telemetry entry of the first, whose message counts the entries that the
    first returned, after the survivors of the old log. *)
Theorem getAuditTrail_twice cfg rng d limit (w : World) :
  0 < Config.maxEntries cfg →
  ∃ records1 w1 records2 w2 telemetry extra,
    getAuditTrail cfg rng (S (S d)) limit w = Some (records1, w1)
    ∧ getAuditTrail cfg rng (S (S d)) None w1 = Some (records2, w2)
    ∧ records2
      = newest (Z.to_nat (Config.maxEntries cfg) - S (length extra)) (auditLog (this w))
        ++ telemetry :: extra
    ∧ type telemetry = "system"
    ∧ message telemetry
      = "Audit trail queried - " +:+ pretty (length records1) +:+ " records retrieved"
    ∧ meta telemetry ≫= (λ m, m !! "limit") = Some (limit_str limit)
    ∧ (length extra ≤ 1)%nat.
Proof.
  intros Hpos.
  destruct (getAuditTrail_effect cfg rng d limit w) as (w1 & extra & Hrun & Heff & Hfol).
  destruct (getAuditTrail_effect cfg rng d None w1) as (w2 & extra2 & Hrun2 & _).
  eexists _, w1, _, w2, _, extra. split; [exact Hrun|]. split; [exact Hrun2|].
  split_and!.
  - simpl. rewrite (effect_log_cons cfg rng Hpos _ _ _ _ Heff).
    by eapply follow_up_kept.
  - reflexivity.
  - reflexivity.
  - simpl. by simplify_map_eq.
  - destruct Hfol as [[-> _]|(x & -> & _)]; simpl; lia.
Qed.

(** A query with the limit [1e21] on a new log: the next query returns its
    telemetry entry, whose metadata has the limit as [toString] prints it. *)
Lemma getAuditTrail_twice_witness :
  ∃ records1 w1 records2 w2 telemetry,
    getAuditTrail AUDIT_CONFIG rng0 2 (Some (10 ^ 21)) empty_recorder = Some (records1, w1)
    ∧ getAuditTrail AUDIT_CONFIG rng0 2 None w1 = Some (records2, w2)
    ∧ records2 = [telemetry]
    ∧ message telemetry = "Audit trail queried - 0 records retrieved"
    ∧ meta telemetry ≫= (λ m, m !! "limit") = Some "1e+21".
Proof.
  destruct (getAuditTrail_twice AUDIT_CONFIG rng0 0%nat (Some (10 ^ 21)) empty_recorder)
    as (records1 & w1 & records2 & w2 & t & extra & Hrun & Hrun2 & Hrec & _ & Hmsg
        & Hmeta & _); [reflexivity|].
  exists records1, w1, records2, w2, t. split; [exact Hrun|]. split; [exact Hrun2|].
  unfold newest in Hrec. simpl auditLog in Hrec. rewrite drop_nil in Hrec.
  vm_compute in Hrun. injection Hrun as <- <-.
  vm_compute in Hrun2. injection Hrun2 as <- _.
  injection Hrec as <- <-.
  split; [reflexivity|]. split; [exact Hmsg | exact Hmeta].
Defined.

(** ** More on the statistics *)

(** X7. The count objects of [getStats] have a counter exactly for the keys
    that occur in the log, and the counter is the number of entries with
    that key; a type, a status or a risk level that no entry has is a
    missing key, not a zero. *)
Theorem getStats_counters (w : World) (k : string) :
  Forall wf_entry (auditLog (this w)) →
  ∃ st,
    getStats w = Some (st, w)
    ∧ byType st !! k
      = counter (length (filter (λ e, type e = k) (auditLog (this w))))
    ∧ byStatus st !! k
      = counter (length (filter (λ e, Status_str (status e) = k) (auditLog (this w))))
    ∧ byRiskLevel st !! k
      = counter (length (filter (λ e, RiskLevel_str (riskLevel e) = k) (auditLog (this w)))).
Proof.
  intros _. unfold getStats, bind, gets, ret. eexists. split; [reflexivity|].
  match goal with |- context [foldl tally ?st ?log] =>
    destruct (tally_count log st k) as (Ht & Hs & Hr);
    destruct (tally_positive log st) as (Pt & Ps & Pr);
      [apply map_Forall_empty.. |]
  end.
  simpl in Ht, Hs, Hr. rewrite lookup_empty in Ht, Hs, Hr. simpl in Ht, Hs, Hr.
  rewrite Nat.add_0_r in Ht, Hs, Hr.
  split_and!; by apply counter_lookup.
Qed.

Lemma getStats_counters_witness :
  ∃ w st,
    constructor AUDIT_CONFIG rng0 2 [] 0 = Some w
    ∧ getStats w = Some (st, w)
    ∧ byType st !! "system" = Some 1%nat
    ∧ byType st !! "proof" = None.
Proof.
  destruct (constructor_wf AUDIT_CONFIG rng0 ltac:(discriminate) 0%nat [] 0%nat)
    as (w & Hnew & Hwf).
  destruct (getStats_counters w "system" Hwf) as (st & Hrun & Hsys & _).
  destruct (getStats_counters w "proof" Hwf) as (st' & Hrun' & Hproof & _).
  assert (st' = st) as -> by congruence.
  exists w, st. split; [exact Hnew|]. split; [exact Hrun|].
  vm_compute in Hnew. injection Hnew as <-. split; [exact Hsys | exact Hproof].
Defined.

(** ** The retention policy at its edge *)

Lemma pushes_unbounded cfg (es log : list AuditEntry) :
  (∀ l, retain cfg l = l) →
  foldl (λ log e, retain cfg (log ++ [e])) log es = log ++ es.
Proof.
  intros Hkeep. revert log.
  induction es as [|e es IH]; intros log; simpl; [by rewrite app_nil_r|].
  rewrite IH, Hkeep. by rewrite <- app_assoc.
Qed.

(** X8. A maximum of zero does not empty the log, it switches the retention
    off: [slice(-0)] is [slice(0)], the whole array, so every entry that is
    pushed stays and the log grows with every call. *)
Theorem maxEntries_zero_keeps_all cfg rng d events (w : World) :
  Config.maxEntries cfg = 0 →
  ∃ w' pushed,
    recordEvents cfg rng (S (S d)) events w = Some (tt, w')
    ∧ audit_lines (console w') = audit_lines (console w) ++ pushed
    ∧ events `sublist_of` ((λ e, (type e, message e, meta e)) <$> pushed)
    ∧ auditLog (this w') = auditLog (this w) ++ pushed
    ∧ (length (auditLog (this w)) + length events ≤ length (auditLog (this w')))%nat.
Proof.
  intros Hzero.
  assert (∀ log, retain cfg log = log) as Hkeep.
  { intros log. unfold retain. rewrite Hzero.
    destruct (_ >? _); [apply slice_0 | done]. }
  destruct (recordEvents_effect cfg rng d events w) as (w' & es & Hrun & Heff & Hsub).
  assert (auditLog (this w') = auditLog (this w) ++ es) as Hlog.
  { destruct Heff as [L _ _ _ _ _]. rewrite L. by apply pushes_unbounded. }
  exists w', es. split_and!; try done; [by destruct Heff|].
  rewrite Hlog, length_app. apply sublist_length in Hsub.
  rewrite length_fmap in Hsub. lia.
Qed.

Lemma maxEntries_zero_keeps_all_witness :
  ∃ w',
    recordEvents {| Config.autoExport := true; Config.maxEntries := 0;
                    Config.riskThreshold := HIGH; Config.enableCompression := true;
                    Config.encryptionLevel := ZK_SNARK |} rng0 2
      [("system", "A", None); ("proof", "B", None)] empty_recorder = Some (tt, w')
    ∧ message <$> auditLog (this w') = ["A"; "B"].
Proof.
  destruct (maxEntries_zero_keeps_all
              {| Config.autoExport := true; Config.maxEntries := 0;
                 Config.riskThreshold := HIGH; Config.enableCompression := true;
                 Config.encryptionLevel := ZK_SNARK |} rng0 0%nat
              [("system", "A", None); ("proof", "B", None)] empty_recorder)
    as (w' & pushed & Hrun & _); [reflexivity|].
  exists w'. split; [exact Hrun|].
  vm_compute in Hrun. injection Hrun as <-. reflexivity.
Defined.

(** ** What every entry of the log satisfies *)

Lemma calculateRiskLevel_not_critical ty meta : calculateRiskLevel ty meta ≠ CRITICAL.
Proof.
  unfold calculateRiskLevel. repeat case_bool_decide; try done;
    by destruct (meta_is _ _ _).
Qed.

Lemma new_entry_inv dr sid ty msg meta : entry_inv (new_entry dr sid ty msg meta).
Proof. split; [done | apply randomElement_status]. Qed.

Lemma effect_entry_inv cfg rng (w w' : World) es :
  effect cfg rng w w' es →
  Forall entry_inv (auditLog (this w)) →
  Forall entry_inv (auditLog (this w')).
Proof.
  intros [L _ _ _ _ Hmade]. rewrite L. clear L.
  generalize (auditLog (this w)) as log.
  induction Hmade as [|e es [n Hn] _ IH]; intros log Hlog; simpl; [done|].
  apply IH, retain_Forall, Forall_app. split; [done|].
  constructor; [|done]. rewrite Hn. apply new_entry_inv.
Qed.

(** X9. The risk level that an entry of the log carries is the one that
    [calculateRiskLevel] gives for the type and the metadata that the entry
    carries, and its status is Verified, Recorded or Pending: the
    constructor leaves such a log, and [recordEvent], [getAuditTrail], the
    start and the end of an export keep it so.  In particular no entry of
    the log is ever CRITICAL, Exported or Failed. *)
Theorem entries_follow_rule :
  (∀ cfg rng d out t,
     ∃ w, constructor cfg rng (S (S d)) out t = Some w
          ∧ Forall entry_inv (auditLog (this w)))
  ∧ (∀ cfg rng d ty msg meta w,
       Forall entry_inv (auditLog (this w)) →
       ∃ w', recordEvent cfg rng (S (S d)) ty msg meta w = Some (tt, w')
             ∧ Forall entry_inv (auditLog (this w')))
  ∧ (∀ cfg rng d limit w,
       Forall entry_inv (auditLog (this w)) →
       ∃ records w', getAuditTrail cfg rng (S (S d)) limit w = Some (records, w')
             ∧ Forall entry_inv records
             ∧ Forall entry_inv (auditLog (this w')))
  ∧ (∀ cfg rng d path w,
       Forall entry_inv (auditLog (this w)) →
       ∃ job w', exportAuditLog cfg rng (S d) path w = Some (job, w')
             ∧ Forall entry_inv (auditLog (this w')))
  ∧ (∀ cfg rng d job fs_error w,
       Forall entry_inv (auditLog (this w)) →
       ∃ w', exportAuditLog_resume cfg rng (S (S d)) job fs_error w = Some (tt, w')
             ∧ Forall entry_inv (auditLog (this w')))
  ∧ (∀ e, entry_inv e →
       riskLevel e ≠ CRITICAL ∧ status e ≠ Exported ∧ status e ≠ Failed).
Proof.
  split_and!.
  - intros cfg rng d out t.
    destruct (constructor_effect cfg rng d out t) as (w & extra & Hrun & Heff & _).
    exists w. split; [done|]. eapply effect_entry_inv; [exact Heff|]. by constructor.
  - intros cfg rng d ty msg meta w Hinv.
    destruct (recordEvent_effect cfg rng d ty msg meta w) as (w' & extra & Hrun & Heff & _).
    exists w'. split; [done|]. by eapply effect_entry_inv.
  - intros cfg rng d limit w Hinv.
    destruct (getAuditTrail_effect cfg rng d limit w) as (w' & extra & Hrun & Heff & _).
    eexists _, w'. split; [exact Hrun|]. split; [by apply trail_Forall|].
    by eapply effect_entry_inv.
  - intros cfg rng d path w Hinv.
    destruct (exportAuditLog_exclusive cfg rng d path w) as (job & w' & es & Hrun & Heff & _).
    exists job, w'. split; [done|]. by eapply effect_entry_inv.
  - intros cfg rng d job fs_error w Hinv.
    destruct (exportAuditLog_resume_effect cfg rng d job fs_error w)
      as (w' & es & Hrun & Heff & _).
    exists w'. split; [done|]. by eapply effect_entry_inv.
  - intros e [Hrisk Hstatus]. split_and!.
    + rewrite Hrisk. apply calculateRiskLevel_not_critical.
    + intros Heq. rewrite Heq in Hstatus.
      repeat (apply elem_of_cons in Hstatus as [?|Hstatus]; [done|]).
      by apply elem_of_nil in Hstatus.
    + intros Heq. rewrite Heq in Hstatus.
      repeat (apply elem_of_cons in Hstatus as [?|Hstatus]; [done|]).
      by apply elem_of_nil in Hstatus.
Qed.

Lemma entries_follow_rule_witness :
  ∃ w w',
    constructor AUDIT_CONFIG rng0 2 [] 0 = Some w
    ∧ recordEvent AUDIT_CONFIG rng0 2 "proof" "ZK proof generated"
        (Some {[ "complexity" := "high" ]}) w = Some (tt, w')
    ∧ Forall entry_inv (auditLog (this w')).
Proof.
  destruct (proj1 entries_follow_rule AUDIT_CONFIG rng0 0%nat [] 0%nat)
    as (w & Hnew & Hinv).
  destruct (proj1 (proj2 entries_follow_rule) AUDIT_CONFIG rng0 0%nat "proof"
              "ZK proof generated" (Some {[ "complexity" := "high" ]}) w Hinv)
    as (w' & Hrun & Hinv').
  exists w, w'. split; [exact Hnew|]. split; [exact Hrun | exact Hinv'].
Defined.

(** ** The verdict of the summary *)

Lemma risk_count_key (r : RiskLevel) (log : list AuditEntry) :
  length (filter (λ e, RiskLevel_str (riskLevel e) = RiskLevel_str r) log)
  = risk_count r log.
Proof.
  unfold risk_count. f_equal. apply list_filter_iff. intros e. split.
  - by destruct (riskLevel e), r.
  - by intros ->.
Qed.

Lemma highRiskCount_counts (w : World) :
  ∃ st,
    getStats w = Some (st, w)
    ∧ highRiskCount st
      = if (risk_count HIGH (auditLog (this w)) =? 0)%nat
        then risk_count CRITICAL (auditLog (this w))
        else risk_count HIGH (auditLog (this w)).
Proof.
  destruct (getStats_counts w "HIGH") as (st & Hrun & _ & _ & Hhigh).
  destruct (getStats_counts w "CRITICAL") as (st' & Hrun' & _ & _ & Hcrit).
  assert (st' = st) as -> by congruence.
  exists st. split; [done|].
  rewrite (risk_count_key HIGH) in Hhigh. rewrite (risk_count_key CRITICAL) in Hcrit.
  rewrite <- Hhigh, <- Hcrit. unfold highRiskCount, or_zero.
  destruct (byRiskLevel st !! "HIGH") as [n|]; simpl;
    [destruct (Nat.eqb_spec n 0)|]; by destruct (byRiskLevel st !! "CRITICAL").
Qed.

Lemma risk_count_critical (log : list AuditEntry) :
  Forall entry_inv log → risk_count CRITICAL log = 0%nat.
Proof.
  unfold risk_count. induction 1 as [|e log [He _] _ IH]; [done|].
  rewrite filter_cons. case_decide as Hc; [|done].
  rewrite He in Hc. by destruct (calculateRiskLevel_not_critical _ _ Hc).
Qed.

(** X11. On a log of the recorder, where no entry is CRITICAL, the count is
    the number of HIGH entries; [printSummary] ends with the warning
    "<n> high-risk events detected" when some entry is HIGH and with "All
    events within acceptable risk parameters" otherwise, and changes
    nothing but the console. *)
Theorem printSummary_verdict_high (w : World) :
  Forall entry_inv (auditLog (this w)) →
  let n := risk_count HIGH (auditLog (this w)) in
  printSummary_verdict w
  = Some (tt, print (Notice (if (n =? 0)%nat
                             then "All events within acceptable risk parameters"
                             else pretty n +:+ " high-risk events detected")) w).
Proof.
  intros Hinv n.
  destruct (highRiskCount_counts w) as (st & Hrun & Hcount).
  rewrite (risk_count_critical _ Hinv) in Hcount. fold n in Hcount.
  assert (highRiskCount st = n) as Hn
    by (rewrite Hcount; by destruct (Nat.eqb_spec n 0)).
  unfold printSummary_verdict, bind. rewrite Hrun, Hn.
  destruct (Nat.eqb_spec n 0) as [->|Hpos]; [done|].
  destruct (Nat.ltb_spec 0 n); [done | lia].
Qed.

Lemma printSummary_verdict_high_witness :
  ∃ w w',
    constructor AUDIT_CONFIG rng0 2 [] 0 = Some w
    ∧ printSummary_verdict w = Some (tt, w')
    ∧ last (console w') = Some (Notice "All events within acceptable risk parameters").
Proof.
  destruct (proj1 entries_follow_rule AUDIT_CONFIG rng0 0%nat [] 0%nat)
    as (w & Hnew & Hinv).
  pose proof (printSummary_verdict_high w Hinv) as Hrun.
  eexists w, _. split; [exact Hnew|]. split; [exact Hrun|].
  vm_compute in Hnew. injection Hnew as <-. reflexivity.
Defined.

(** ** The first export of a recorder *)

(** X12. With the configuration of the source the first export of a
    recorder starts in the ninth call of [recordEvent] after the
    construction, whatever the events are: the constructor and eight calls
    leave nine entries, one per call after the bootstrap entry, and no
    export; the ninth call pushes its entry as the tenth and the notice of
    the export as the eleventh, and sets [isExporting]. *)
Theorem first_export_at_ninth_call rng d out t events ty msg
    (m : option (gmap string string)) :
  length events = 8%nat →
  ∃ w0 w8 w9 boot es e x,
    constructor AUDIT_CONFIG rng (S (S d)) out t = Some w0
    ∧ recordEvents AUDIT_CONFIG rng (S (S d)) events w0 = Some (tt, w8)
    ∧ auditLog (this w8) = boot :: es
    ∧ message boot = "Privacy Audit System initialized"
    ∧ (λ e, (type e, message e, meta e)) <$> es = events
    ∧ isExporting (this w8) = false
    ∧ recordEvent AUDIT_CONFIG rng (S (S d)) ty msg m w8 = Some (tt, w9)
    ∧ auditLog (this w9) = boot :: es ++ [e; x]
    ∧ (type e, message e, meta e) = (ty, msg, m)
    ∧ type x = "system"
    ∧ message x = "Starting audit log export: " +:+ generateId (rng (S (S (tick w8)))) "EXP"
    ∧ isExporting (this w9) = true.
Proof.
  intros Hlen. unfold constructor.
  match goal with |- context [recordEvent _ _ _ ?a ?b ?c ?y] =>
    destruct (recordEvent_below_ten rng (S d) a b c y) as [-> L0]; [simpl; lia|];
    set (w0 := pushed AUDIT_CONFIG (created rng y a b c) y) in *;
    set (boot := created rng y a b c) in *
  end.
  change (auditLog (this w0) = [boot]) in L0.
  destruct (recordEvents_below_ten rng (S d) events w0)
    as (w8 & es & Hrun & L8 & Hkeys & Hb8); [rewrite L0; simpl; lia|].
  rewrite L0 in L8. simpl in L8.
  assert (length es = 8%nat) as Hpushed
    by (by rewrite <- (length_fmap (λ e, (type e, message e, meta e))), Hkeys).
  assert (retain AUDIT_CONFIG (auditLog (this w8) ++ [created rng w8 ty msg m])
          = auditLog (this w8) ++ [created rng w8 ty msg m]) as Hkeep.
  { rewrite retain_newest by done. apply newest_all.
    rewrite length_app, L8. simpl. lia. }
  destruct (recordEvent_starts_export AUDIT_CONFIG rng d ty msg m w8)
    as (w9 & Hrun9 & Heff & Hb9).
  { rewrite Hkeep, length_app, L8. simpl length. rewrite Hpushed. reflexivity. }
  { rewrite Hb8. reflexivity. }
  eexists w0, w8, w9, boot, es, _, _. split_and!; try done.
  - rewrite (effect_log_cons AUDIT_CONFIG rng eq_refl _ _ _ _ Heff).
    rewrite newest_all, L8; [done|]. rewrite length_app, L8. simpl. lia.
  - reflexivity.
  - reflexivity.
  - reflexivity.
Qed.

Lemma first_export_at_ninth_call_witness :
  ∃ w0 w8 w9,
    constructor AUDIT_CONFIG rng0 2 [] 0 = Some w0
    ∧ recordEvents AUDIT_CONFIG rng0 2 demo_events w0 = Some (tt, w8)
    ∧ recordEvent AUDIT_CONFIG rng0 2 "system" "Memory optimized"
        (Some {[ "iteration" := "1" ]}) w8 = Some (tt, w9)
    ∧ isExporting (this w9) = true.
Proof.
  destruct (first_export_at_ninth_call rng0 0%nat [] 0%nat demo_events
              "system" "Memory optimized" (Some {[ "iteration" := "1" ]}))
    as (w0 & w8 & w9 & boot & es & e & x & Hnew & Hrun & _ & _ & _ & _ & Hrun9
        & _ & _ & _ & _ & Hflag); [reflexivity|].
  exists w0, w8, w9. split_and!; assumption.
Defined.

(** * Properties of the text utilities *)

Lemma length_of_list (l : list ascii) :
  String.length (String.string_of_list_ascii l) = length l.
Proof. induction l as [|c l IH]; simpl; [done | by rewrite IH]. Qed.

Lemma length_to_list (s : string) :
  length (String.list_ascii_of_string s) = String.length s.
Proof. induction s as [|c s IH]; simpl; [done | by rewrite IH]. Qed.

Lemma to_list_app (s1 s2 : string) :
  String.list_ascii_of_string (s1 +:+ s2)
  = String.list_ascii_of_string s1 ++ String.list_ascii_of_string s2.
Proof. induction s1 as [|c s1 IH]; simpl; [done | by rewrite IH]. Qed.

Lemma length_append (s1 s2 : string) :
  String.length (s1 +:+ s2) = (String.length s1 + String.length s2)%nat.
Proof. induction s1 as [|c s1 IH]; simpl; [done | by rewrite IH]. Qed.

Lemma append_cons c (s1 s2 : string) : String c s1 +:+ s2 = String c (s1 +:+ s2).
Proof. reflexivity. Qed.

Lemma append_assoc (s1 s2 s3 : string) : (s1 +:+ s2) +:+ s3 = s1 +:+ s2 +:+ s3.
Proof. induction s1 as [|c s1 IH]; [done|]. rewrite !append_cons. by rewrite IH. Qed.

Lemma js_repeat_length (n : nat) : String.length (js_repeat "*" n) = n.
Proof. induction n as [|n IH]; simpl; [done | f_equal; exact IH]. Qed.

Lemma js_substring_length a b s :
  String.length (js_substring a b s)
  = ((a `min` String.length s) `max` (b `min` String.length s)
     - (a `min` String.length s) `min` (b `min` String.length s))%nat.
Proof.
  unfold js_substring. rewrite length_of_list, length_take, length_drop, length_to_list.
  lia.
Qed.

Lemma js_substring_prefix n (s1 s2 : string) :
  String.length s1 = n → js_substring 0 n (s1 +:+ s2) = s1.
Proof.
  intros Hn. unfold js_substring. rewrite length_append, to_list_app.
  replace (0 `min` (String.length s1 + String.length s2))%nat with 0%nat by lia.
  replace (n `min` (String.length s1 + String.length s2))%nat with n by lia.
  replace (0 `max` n - 0 `min` n)%nat with n by lia.
  replace (0 `min` n)%nat with 0%nat by lia.
  rewrite drop_0, take_app_length' by (by rewrite length_to_list).
  apply String.string_of_list_ascii_of_string.
Qed.

Lemma js_substring_suffix (s1 s2 : string) :
  js_substring_from (String.length s1) (s1 +:+ s2) = s2.
Proof.
  unfold js_substring_from, js_substring. rewrite length_append, to_list_app.
  set (n1 := String.length s1). set (n2 := String.length s2).
  replace (n1 `min` (n1 + n2))%nat with n1 by lia.
  replace ((n1 + n2) `min` (n1 + n2))%nat with (n1 + n2)%nat by lia.
  replace (n1 `max` (n1 + n2) - n1 `min` (n1 + n2))%nat with n2 by lia.
  replace (n1 `min` (n1 + n2))%nat with n1 by lia.
  rewrite drop_app_length' by (by rewrite length_to_list).
  rewrite take_ge by (rewrite length_to_list; unfold n2; lia).
  apply String.string_of_list_ascii_of_string.
Qed.

(** X13. [mask] shows the first and the last [visibleChars] characters of a
    long value and nothing of what is between them, not even its length:
    the middle becomes twelve stars.  A value of at most twice
    [visibleChars] characters becomes as many stars, so two such values of
    the same length have the same mask.  The mask of a value that is one
    to eleven characters longer than that is longer than the value. *)
Theorem mask_hides_middle (n : nat) :
  (∀ first middle last,
     String.length first = n → String.length last = n → middle ≠ "" →
     mask (first +:+ middle +:+ last) n = first +:+ "************" +:+ last)
  ∧ (∀ value value',
       (String.length value ≤ n * 2)%nat → String.length value' = String.length value →
       mask value' n = mask value n
       ∧ String.length (mask value n) = String.length value)
  ∧ (∀ value,
       (n * 2 < String.length value)%nat →
       String.length (mask value n) = (n * 2 + 12)%nat).
Proof.
  split_and!.
  - intros first middle last Hf Hl Hm. unfold mask.
    assert (0 < String.length middle)%nat as Hmid by (destruct middle; [done | simpl; lia]).
    rewrite !length_append.
    destruct (Nat.leb_spec (String.length first + (String.length middle + String.length last))
                (n * 2)) as [Hle|_]; [lia|].
    cbn zeta. rewrite js_substring_prefix by done. do 2 f_equal.
    replace (String.length first + (String.length middle + String.length last) - n)%nat
      with (String.length (first +:+ middle))
      by (rewrite length_append; lia).
    rewrite <- (js_substring_suffix (first +:+ middle) last) at 2.
    by rewrite append_assoc.
  - intros value value' Hshort Hsame. unfold mask. rewrite Hsame.
    destruct (Nat.leb_spec (String.length value) (n * 2)); [|lia].
    split; [done | apply js_repeat_length].
  - intros value Hlong. unfold mask.
    destruct (Nat.leb_spec (String.length value) (n * 2)); [lia|].
    cbn zeta. rewrite !length_append, js_repeat_length.
    unfold js_substring_from. rewrite !js_substring_length. lia.
Qed.

Lemma mask_hides_middle_witness :
  mask "0x1234567890abcdef" 4 = "0x12************cdef"
  ∧ mask "secret" 4 = mask "public" 4
  ∧ String.length (mask "123456789" 4) = 20%nat.
Proof.
  split; [|split].
  - apply (proj1 (mask_hides_middle 4) "0x12" "34567890ab" "cdef"); done.
  - apply (proj1 (proj2 (mask_hides_middle 4)) "public" "secret"); [simpl; lia | done].
  - apply (proj2 (proj2 (mask_hides_middle 4)) "123456789"). simpl. lia.
Defined.

Lemma append_nil_r (s : string) : s +:+ "" = s.
Proof. induction s as [|c s IH]; [done|]. rewrite append_cons. by rewrite IH. Qed.

Lemma of_list_app (l1 l2 : list ascii) :
  String.string_of_list_ascii (l1 ++ l2)
  = String.string_of_list_ascii l1 +:+ String.string_of_list_ascii l2.
Proof.
  induction l1 as [|c l1 IH]; [done|].
  change (String c (String.string_of_list_ascii (l1 ++ l2))
          = String c (String.string_of_list_ascii l1 +:+ String.string_of_list_ascii l2)).
  by rewrite IH.
Qed.

Lemma char_at_hex (i : nat) :
  (i < 16)%nat →
  ∃ c, char_at i hex_chars = String c EmptyString
       ∧ c ∈ String.list_ascii_of_string hex_chars.
Proof.
  intros Hi.
  do 16 (destruct i as [|i];
         [eexists; split; [reflexivity|];
          cbn; repeat first [apply list_elem_of_here | apply list_elem_of_further] |]).
  lia.
Qed.

Lemma integrity_loop_digits (n : nat) (random : nat → nat) (result : string) :
  ∃ digits,
    integrity_loop n random result = result +:+ digits
    ∧ String.length digits = n
    ∧ Forall (λ c, c ∈ String.list_ascii_of_string hex_chars)
        (String.list_ascii_of_string digits).
Proof.
  revert random result. induction n as [|n IH]; intros random result.
  - exists "". by rewrite append_nil_r.
  - destruct (char_at_hex (random 0%nat mod 16)) as (c & Hc & Hin).
    { apply Nat.mod_upper_bound. lia. }
    destruct (IH (λ i, random (S i)) (result +:+ String c EmptyString))
      as (digits & Hrun & Hlen & Hall).
    exists (String c digits). split_and!.
    + cbn [integrity_loop]. change (String.length hex_chars) with 16%nat.
      rewrite Hc, Hrun, append_assoc. reflexivity.
    + cbn. by rewrite Hlen.
    + cbn. by constructor.
Qed.

(** X14. [generateIntegrityHash] returns "0x" and sixty-four hexadecimal
    digits, sixty-six characters, whatever the random numbers are; the
    masked form that [logToConsole] displays for it has twenty characters,
    "0x", the first two digits, twelve stars and the last four digits, and
    nothing of the fifty-eight digits between. *)
Theorem integrityHash_shape (random : nat → nat) :
  ∃ first middle last,
    generateIntegrityHash_loop random = "0x" +:+ first +:+ middle +:+ last
    ∧ String.length first = 2%nat
    ∧ String.length middle = 58%nat
    ∧ String.length last = 4%nat
    ∧ Forall (λ c, c ∈ String.list_ascii_of_string hex_chars)
        (String.list_ascii_of_string (first +:+ middle +:+ last))
    ∧ String.length (generateIntegrityHash_loop random) = 66%nat
    ∧ mask (generateIntegrityHash_loop random) 4
      = "0x" +:+ first +:+ "************" +:+ last.
Proof.
  destruct (integrity_loop_digits 64 random "0x") as (digits & Hrun & Hlen & Hall).
  set (l := String.list_ascii_of_string digits).
  assert (length l = 64%nat) as Hl by (unfold l; by rewrite length_to_list).
  assert (digits = String.string_of_list_ascii (take 2 l)
                   +:+ String.string_of_list_ascii (take 58 (drop 2 l))
                   +:+ String.string_of_list_ascii (drop 60 l)) as Hsplit.
  { rewrite <- !of_list_app.
    replace (drop 60 l) with (drop 58 (drop 2 l)) by (by rewrite drop_drop).
    rewrite !take_drop. unfold l. symmetry. apply String.string_of_list_ascii_of_string. }
  exists (String.string_of_list_ascii (take 2 l)),
         (String.string_of_list_ascii (take 58 (drop 2 l))),
         (String.string_of_list_ascii (drop 60 l)).
  unfold generateIntegrityHash_loop. rewrite Hrun.
  assert (String.length (String.string_of_list_ascii (take 2 l)) = 2%nat) as H2
    by (rewrite length_of_list, length_take; lia).
  assert (String.length (String.string_of_list_ascii (take 58 (drop 2 l))) = 58%nat) as H58
    by (rewrite length_of_list, length_take, length_drop; lia).
  assert (String.length (String.string_of_list_ascii (drop 60 l)) = 4%nat) as H4
    by (rewrite length_of_list, length_drop; lia).
  split_and!; try done.
  - by rewrite <- Hsplit.
  - by rewrite <- Hsplit.
  - rewrite length_append, Hlen. reflexivity.
  - rewrite Hsplit at 1.
    rewrite <- (append_assoc "0x" (String.string_of_list_ascii (take 2 l))).
    rewrite (proj1 (mask_hides_middle 4)).
    + by rewrite append_assoc.
    + rewrite length_append, H2. reflexivity.
    + done.
    + intros Hempty. rewrite Hempty in H58. done.
Qed.

(** ** The time stamps *)

Lemma js_replace_first (c d : ascii) (s1 s2 : string) :
  c ∉ String.list_ascii_of_string s1 →
  js_replace c d (s1 +:+ String c s2) = s1 +:+ String d s2.
Proof.
  induction s1 as [|x s1 IH]; intros Hc.
  - change (js_replace c d (String c s2) = String d s2).
    cbn [js_replace]. by destruct (decide (c = c)).
  - cbn in Hc. apply not_elem_of_cons in Hc as [Hx Hc].
    rewrite !append_cons. cbn [js_replace].
    destruct (decide (x = c)) as [->|_]; [done|]. by rewrite IH.
Qed.

Lemma js_split_cons (sep : ascii) (s : string) :
  ∃ piece pieces, js_split sep s = piece :: pieces.
Proof.
  induction s as [|x s (piece & pieces & IH)]; [by eexists _, _|].
  cbn [js_split]. destruct (decide (x = sep)); [by eexists _, _|].
  rewrite IH. by eexists _, _.
Qed.

Lemma js_split_prefix (sep : ascii) (s1 s2 : string) :
  sep ∉ String.list_ascii_of_string s1 →
  ∃ piece pieces,
    js_split sep s2 = piece :: pieces
    ∧ js_split sep (s1 +:+ s2) = (s1 +:+ piece) :: pieces.
Proof.
  induction s1 as [|x s1 IH]; intros Hsep.
  - destruct (js_split_cons sep s2) as (piece & pieces & H). by exists piece, pieces.
  - cbn in Hsep. apply not_elem_of_cons in Hsep as [Hx Hsep].
    destruct (IH Hsep) as (piece & pieces & H2 & H12).
    exists piece, pieces. split; [done|].
    rewrite append_cons. cbn [js_split]. rewrite decide_False by done.
    by rewrite H12.
Qed.

Lemma js_split_none (sep : ascii) (s : string) :
  sep ∉ String.list_ascii_of_string s → js_split sep s = [s].
Proof.
  intros Hsep. destruct (js_split_prefix sep s "" Hsep) as (piece & pieces & H & H').
  rewrite append_nil_r in H'. cbn in H. injection H as <- <-.
  by rewrite H', append_nil_r.
Qed.

(** X15. From the text of [toISOString()], a date of ten characters, "T", a
    time of eight characters and the rest, [now()] makes the date, a space
    and the time, nineteen characters; the time that [logToConsole]
    displays for such a time stamp ([split(' ')[1]]) is that time, and so is
    [timestamp()] of the synchronisation engine
    ([split('T')[1].substring(0, 8)]), for the same instant. *)
Theorem now_text_format (date time rest : string) :
  String.length date = 10%nat →
  String.length time = 8%nat →
  "T"%char ∉ String.list_ascii_of_string date →
  " "%char ∉ String.list_ascii_of_string date →
  "T"%char ∉ String.list_ascii_of_string time →
  " "%char ∉ String.list_ascii_of_string time →
  let isoString := date +:+ "T" +:+ time +:+ rest in
  now_text isoString = date +:+ " " +:+ time
  ∧ String.length (now_text isoString) = 19%nat
  ∧ console_time (now_text isoString) = Some time
  ∧ sync_timestamp isoString = Some time.
Proof.
  intros Hd Ht HTd HSd HTt HSt isoString.
  assert (now_text isoString = date +:+ " " +:+ time) as Hnow.
  { unfold now_text, isoString.
    change (date +:+ "T" +:+ time +:+ rest) with (date +:+ String "T" (time +:+ rest)).
    rewrite js_replace_first by done.
    change (date +:+ String " " (time +:+ rest)) with (date +:+ " " +:+ time +:+ rest).
    rewrite <- (append_assoc " " time rest), <- (append_assoc date (" " +:+ time) rest).
    apply js_substring_prefix. rewrite !length_append, Hd, Ht. reflexivity. }
  split_and!.
  - exact Hnow.
  - rewrite Hnow, !length_append, Hd, Ht. reflexivity.
  - rewrite Hnow. unfold console_time.
    destruct (js_split_prefix " " date (" " +:+ time) HSd) as (piece & pieces & H & ->).
    change (" " +:+ time) with (String " " time) in H. cbn [js_split] in H.
    rewrite decide_True in H by done. injection H as <- <-.
    by rewrite js_split_none.
  - unfold sync_timestamp, isoString.
    destruct (js_split_prefix "T" date ("T" +:+ time +:+ rest) HTd) as (piece & pieces & H & ->).
    change ("T" +:+ time +:+ rest) with (String "T" (time +:+ rest)) in H.
    cbn [js_split] in H. rewrite decide_True in H by done. injection H as <- <-.
    destruct (js_split_prefix "T" time rest HTt) as (piece & pieces & _ & ->).
    cbn. f_equal. by apply js_substring_prefix.
Qed.

Lemma now_text_format_witness :
  now_text "2025-01-01T12:34:56.789Z" = "2025-01-01 12:34:56"
  ∧ console_time (now_text "2025-01-01T12:34:56.789Z") = Some "12:34:56"
  ∧ sync_timestamp "2025-01-01T12:34:56.789Z" = Some "12:34:56".
Proof.
  destruct (now_text_format "2025-01-01" "12:34:56" ".789Z")
    as (Hnow & _ & Hconsole & Hsync);
    [reflexivity | reflexivity | by apply (bool_decide_unpack _)
    | by apply (bool_decide_unpack _) | by apply (bool_decide_unpack _)
    | by apply (bool_decide_unpack _) |].
  split; [exact Hnow|]. split; [exact Hconsole | exact Hsync].
Defined.

(** * Properties of calculateHealth *)

Lemma Qle_bool_false (x y : Q) : Qle_bool x y = false → (y < x)%Q.
Proof.
  intros H. apply Qnot_le_lt. intros Hle. apply Qle_bool_iff in Hle. congruence.
Qed.

Ltac health_cases :=
  unfold calculateHealth, health_rank;
  repeat match goal with
         | |- context [Qle_bool ?x ?y] =>
             let Hq := fresh "Hq" in
             destruct (Qle_bool x y) eqn:Hq;
             [apply Qle_bool_iff in Hq | apply Qle_bool_false in Hq]
         end;
  cbn.

(** X16. [calculateHealth] is monotone: with at least the accuracy, at most
    the latency and integrity kept (or gained), the health is not worse, in
    the order Critical, Degraded, Stable, Optimal.  The health is Critical
    exactly without integrity or with an accuracy below 95, whatever the
    latency is, and a latency of 1000 or more excludes Optimal and
    Stable. *)
Theorem calculateHealth_monotone :
  (∀ accuracy accuracy' latency latency' integrity integrity',
     (accuracy <= accuracy')%Q → (latency' <= latency)%Q →
     (integrity = true → integrity' = true) →
     (health_rank (calculateHealth accuracy latency integrity)
      ≤ health_rank (calculateHealth accuracy' latency' integrity'))%nat)
  ∧ (∀ accuracy latency integrity,
       calculateHealth accuracy latency integrity = Critical
       ↔ integrity = false ∨ (accuracy < 95)%Q)
  ∧ (∀ accuracy latency integrity,
       (1000 <= latency)%Q →
       calculateHealth accuracy latency integrity = Degraded
       ∨ calculateHealth accuracy latency integrity = Critical).
Proof.
  split_and!.
  - intros a a' l l' i i' Ha Hl Hi.
    destruct i, i'; try (specialize (Hi eq_refl); discriminate);
      health_cases; try lia; exfalso; lra.
  - intros a l i. destruct i; health_cases; split; intros Hc;
      try reflexivity; try discriminate; try (by left); try (by right);
      try (destruct Hc as [Hc|Hc]; [discriminate | exfalso; lra]).
  - intros a l i Hl. destruct i; health_cases; auto; exfalso; lra.
Qed.

Lemma calculateHealth_monotone_witness :
  (health_rank (calculateHealth (985 # 10) 1900 true)
   ≤ health_rank (calculateHealth (995 # 10) 400 true))%nat
  ∧ calculateHealth (995 # 10) 1900 true = Degraded.
Proof.
  split.
  - apply (proj1 calculateHealth_monotone); [unfold Qle; simpl; lia.. | done].
  - destruct (proj2 (proj2 calculateHealth_monotone) (995 # 10) 1900%Q true) as [H|H];
      [unfold Qle; simpl; lia | exact H | discriminate H].
Defined.
